(** * Blink Tac Toe

    A shallow embedding of the game logic of [components/blink-tac-toe.tsx]
    (the React component [BlinkTacToe]) and the properties of its handlers.

    The component keeps three pieces of React state: [gameState], [players]
    and [scores].  A handler reads the values of the last render and calls
    the setters; here a handler is a function from the state before to the
    state after, and the one [useEffect] of the component is applied between
    two handlers when one of its dependencies changed. *)

From Stdlib Require Import String List Arith Bool Lia Permutation.
Import ListNotations.
Local Open Scope string_scope.
Local Open Scope nat_scope.
Local Open Scope list_scope.

(** ** JavaScript values and arrays *)

(** What a board cell, or a drawn emoji, can be at run time: a string,
    [null], or [undefined] (a read past the end of an array, or a hole). *)
Inductive Val : Type :=
| Undefined
| Null
| Str (s : string).

Definition isNull (v : Val) : bool :=
  match v with Null => true | _ => false end.

(** JavaScript truthiness of a cell: [null], [undefined] and the empty
    string are falsy. *)
Definition truthy (v : Val) : bool :=
  match v with
  | Str s => negb (String.eqb s "")
  | _ => false
  end.

(** [board[i]]: reading past the end yields [undefined]. *)
Definition cell (board : list Val) (i : nat) : Val := nth i board Undefined.

(** [board[i] = v]: writing past the end extends the array, the slots in
    between are holes, which read as [undefined]. *)
Fixpoint setCell (board : list Val) (i : nat) (v : Val) : list Val :=
  match board, i with
  | [], 0 => [v]
  | [], S i' => Undefined :: setCell [] i' v
  | _ :: rest, 0 => v :: rest
  | x :: rest, S i' => x :: setCell rest i' v
  end.

(** [list.includes(v)] on a list of strings. *)
Definition includes (l : list string) (v : Val) : bool :=
  match v with
  | Str s => existsb (String.eqb s) l
  | _ => false
  end.

(** ** The random source

    [Math.random()] yields a number in [0, 1).  A draw is the fraction
    [numer / (numer + slack + 1)], so that the range is part of the type;
    [floorTimes r n] is [Math.floor(r * n)]. *)
Record Rand : Type := { numer : nat; slack : nat }.

Definition floorTimes (r : Rand) (n : nat) : nat :=
  (numer r * n) / (numer r + slack r + 1).

(** ** The catalogue of categories *)

(** The keys of [emojiCategories]; the component only ever stores one of
    them in a category field ([category as keyof typeof emojiCategories]). *)
Inductive Category : Type := animals | food | sports | tech | space.

Definition Category_eqb (a b : Category) : bool :=
  match a, b with
  | animals, animals | food, food | sports, sports | tech, tech | space, space => true
  | _, _ => false
  end.

Definition emojiCategories (c : Category) : list string :=
  match c with
  | animals => ["🐶"; "🐱"; "🐵"; "🐰"; "🦊"; "🐻"; "🐼"; "🐨"; "🦁"; "🐯"]
  | food => ["🍕"; "🍔"; "🍟"; "🍩"; "🍦"; "🍭"; "🍫"; "🍿"; "🥐"; "🍪"]
  | sports => ["⚽"; "🏀"; "🏈"; "🎾"; "🏐"; "🏉"; "🎱"; "🏓"; "⚾"; "🥎"]
  | tech => ["💻"; "📱"; "🖥️"; "⌨️"; "🖱️"; "🎮"; "🎧"; "📷"; "🕹️"; "🔋"]
  | space => ["🚀"; "🛸"; "🌌"; "🌠"; "🪐"; "👾"; "👽"; "🌑"; "🌕"; "☄️"]
  end.

(** The placeholder [getRandomEmoji] falls back to. *)
Definition placeholder : string := "❓".

(** ** The state of the component *)

(** An element of [placedEmojis]. *)
Record Placed : Type := { position : nat; emoji : Val }.

Record Player : Type := {
  id : nat;
  category : Category;
  emojis : list string;
  placedEmojis : list Placed
}.

Record GameState : Type := {
  board : list Val;
  currentPlayer : nat;
  winner : option nat;
  winningLine : option (list nat);
  gameStarted : bool;
  player1Category : Category;
  player2Category : Category
}.

Record Scores : Type := { player1 : nat; player2 : nat }.

Record World : Type := {
  gameState : GameState;
  players : list Player;
  scores : Scores
}.

Definition initialGameState : GameState := {|
  board := repeat Null 9;
  currentPlayer := 1;
  winner := None;
  winningLine := None;
  gameStarted := false;
  player1Category := tech;
  player2Category := space
|}.

(** The three [useState] initial values. *)
Definition initialWorld : World := {|
  gameState := initialGameState;
  players :=
    [ {| id := 1; category := tech; emojis := []; placedEmojis := [] |};
      {| id := 2; category := space; emojis := []; placedEmojis := [] |} ];
  scores := {| player1 := 0; player2 := 0 |}
|}.

Definition winningCombinations : list (list nat) :=
  [ [0; 1; 2];
    [3; 4; 5];
    [6; 7; 8];
    [0; 3; 6];
    [1; 4; 7];
    [2; 5; 8];
    [0; 4; 8];
    [2; 4; 6] ].

(** ** getRandomEmoji *)

Definition getRandomEmoji (ps : list Player) (r : Rand) (playerId : nat) : Val :=
  match find (fun p => id p =? playerId) ps with
  | None => Str placeholder
  | Some player =>
      if length (emojis player) =? 0 then Str placeholder
      else
        let randomIndex := floorTimes r (length (emojis player)) in
        match nth_error (emojis player) randomIndex with
        | Some e => Str e
        | None => Undefined
        end
  end.

(** ** checkWinner *)

(** The body of the loop of [checkWinner] for one combination: the player
    the combination is a win for, if any.  The categories are those of the
    [gameState] of the current render. *)
Definition comboWinner (gs : GameState) (b : list Val) (combo : list nat) : option nat :=
  match combo with
  | a :: b' :: c :: _ =>
      if truthy (cell b a) && truthy (cell b b') && truthy (cell b c) then
        let isPlayer1Win :=
          includes (emojiCategories (player1Category gs)) (cell b a) &&
          includes (emojiCategories (player1Category gs)) (cell b b') &&
          includes (emojiCategories (player1Category gs)) (cell b c) in
        let isPlayer2Win :=
          includes (emojiCategories (player2Category gs)) (cell b a) &&
          includes (emojiCategories (player2Category gs)) (cell b b') &&
          includes (emojiCategories (player2Category gs)) (cell b c) in
        if isPlayer1Win then Some 1
        else if isPlayer2Win then Some 2
        else None
      else None
  | _ => None
  end.

(** The [for ... of] loop with its early [return]; the result is the pair
    [(winner, winningLine)]. *)
Fixpoint checkWinnerIn (gs : GameState) (b : list Val) (combos : list (list nat))
  : option nat * option (list nat) :=
  match combos with
  | [] => (None, None)
  | combo :: rest =>
      match comboWinner gs b combo with
      | Some p => (Some p, Some combo)
      | None => checkWinnerIn gs b rest
      end
  end.

Definition checkWinner (gs : GameState) (b : list Val) : option nat * option (list nat) :=
  checkWinnerIn gs b winningCombinations.

(** ** handleCellClick *)

Definition withPlaced (player : Player) (q : list Placed) : Player :=
  {| id := id player; category := category player; emojis := emojis player;
     placedEmojis := q |}.

(** The callback of [players.map] in [handleCellClick], applied to the
    players in order.  The callback writes to [newBoard] (the vanishing
    rule), so the board is threaded through the traversal. *)
Fixpoint updatePlayers (currentPlayerId index : nat) (e : Val)
    (ps : list Player) (newBoard : list Val) : list Player * list Val :=
  match ps with
  | [] => ([], newBoard)
  | player :: rest =>
      if id player =? currentPlayerId then
        let newPlacedEmojis :=
          placedEmojis player ++ [ {| position := index; emoji := e |} ] in
        if 3 <? length newPlacedEmojis then
          (* newPlacedEmojis[0] exists: the list is longer than 3 *)
          let oldestPosition :=
            match newPlacedEmojis with oldest :: _ => position oldest | [] => 0 end in
          let '(rest', b') :=
            updatePlayers currentPlayerId index e rest (setCell newBoard oldestPosition Null) in
          (withPlaced player (tl newPlacedEmojis) :: rest', b')
        else
          let '(rest', b') := updatePlayers currentPlayerId index e rest newBoard in
          (withPlaced player newPlacedEmojis :: rest', b')
      else
        let '(rest', b') := updatePlayers currentPlayerId index e rest newBoard in
        (player :: rest', b')
  end.

(** The guard at the top of [handleCellClick]: the click is ignored. *)
Definition ignored (gs : GameState) (index : nat) : bool :=
  negb (gameStarted gs)
  || negb (isNull (cell (board gs) index))
  || match winner gs with Some _ => true | None => false end.

(** [if (winResult.winner)] and the update of the scores. *)
Definition updateScores (w : option nat) (s : Scores) : Scores :=
  match w with
  | Some n =>
      if n =? 0 then s
      else {| player1 := if n =? 1 then player1 s + 1 else player1 s;
              player2 := if n =? 2 then player2 s + 1 else player2 s |}
  | None => s
  end.

(** [r] is the value [Math.random()] returns in [getRandomEmoji]. *)
Definition handleCellClick (index : nat) (r : Rand) (w : World) : World :=
  let gs := gameState w in
  if ignored gs index then w
  else
    let currentPlayerId := currentPlayer gs in
    let e := getRandomEmoji (players w) r currentPlayerId in
    let '(updatedPlayers, newBoard) :=
      updatePlayers currentPlayerId index e (players w) (setCell (board gs) index e) in
    let winResult := checkWinner gs newBoard in
    {| gameState :=
         {| board := newBoard;
            currentPlayer := if currentPlayerId =? 1 then 2 else 1;
            winner := fst winResult;
            winningLine := snd winResult;
            gameStarted := gameStarted gs;
            player1Category := player1Category gs;
            player2Category := player2Category gs |};
       players := updatedPlayers;
       scores := updateScores (fst winResult) (scores w) |}.

(** ** startGame, resetGame, handleCategoryChange *)

Definition startGame (w : World) : World :=
  let gs := gameState w in
  {| gameState :=
       {| board := repeat Null 9;
          currentPlayer := 1;
          winner := None;
          winningLine := None;
          gameStarted := true;
          player1Category := player1Category gs;
          player2Category := player2Category gs |};
     players := players w;
     scores := scores w |}.

Definition resetGame (w : World) : World :=
  let gs := gameState w in
  {| gameState :=
       {| board := board initialGameState;
          currentPlayer := currentPlayer initialGameState;
          winner := winner initialGameState;
          winningLine := winningLine initialGameState;
          gameStarted := gameStarted initialGameState;
          player1Category := player1Category gs;
          player2Category := player2Category gs |};
     players :=
       [ {| id := 1; category := player1Category gs; emojis := []; placedEmojis := [] |};
         {| id := 2; category := player2Category gs; emojis := []; placedEmojis := [] |} ];
     scores := scores w |}.

Definition withCategories (gs : GameState) (c1 c2 : Category) : GameState :=
  {| board := board gs;
     currentPlayer := currentPlayer gs;
     winner := winner gs;
     winningLine := winningLine gs;
     gameStarted := gameStarted gs;
     player1Category := c1;
     player2Category := c2 |}.

Definition handleCategoryChange (playerId : nat) (c : Category) (w : World) : World :=
  let gs := gameState w in
  {| gameState :=
       if playerId =? 1 then withCategories gs c (player2Category gs)
       else withCategories gs (player1Category gs) c;
     players := players w;
     scores := scores w |}.

(** ** The effect that initialises the players *)

(** [l[i] = x] on a list of strings, for [i] inside the list. *)
Fixpoint setNth (l : list string) (i : nat) (x : string) : list string :=
  match l, i with
  | [], _ => []
  | _ :: rest, 0 => x :: rest
  | y :: rest, S i' => y :: setNth rest i' x
  end.

(** [[l[i], l[j]] = [l[j], l[i]]]; the shuffle only calls it with [i] and
    [j] inside the list. *)
Definition swap (l : list string) (i j : nat) : list string :=
  match nth_error l i, nth_error l j with
  | Some x, Some y => setNth (setNth l i y) j x
  | _, _ => l
  end.

(** The loop [for (let i = n; i > 0; i--)] of the shuffle; [rnd i] is the
    value of [Math.random()] in the iteration for [i]. *)
Fixpoint shuffleFrom (rnd : nat -> Rand) (i : nat) (l : list string) : list string :=
  match i with
  | 0 => l
  | S i' => shuffleFrom rnd i' (swap l i (floorTimes (rnd i) (i + 1)))
  end.

Definition shuffle (rnd : nat -> Rand) (l : list string) : list string :=
  shuffleFrom rnd (length l - 1) l.

(** The body of the [useEffect]; [rnd p] is the random source of the
    shuffle for the player with id [p]. *)
Definition initPlayers (rnd : nat -> nat -> Rand) (w : World) : World :=
  let gs := gameState w in
  if gameStarted gs then
    {| gameState := gs;
       players :=
         map (fun player =>
                let c := if id player =? 1 then player1Category gs
                         else player2Category gs in
                {| id := id player;
                   category := c;
                   emojis := shuffle (rnd (id player)) (emojiCategories c);
                   placedEmojis := [] |})
             (players w);
       scores := scores w |}
  else w.

(** The dependency array [[gameStarted, player1Category, player2Category]]
    compared between two renders. *)
Definition depsChanged (prev next : GameState) : bool :=
  negb (Bool.eqb (gameStarted prev) (gameStarted next))
  || negb (Category_eqb (player1Category prev) (player1Category next))
  || negb (Category_eqb (player2Category prev) (player2Category next)).

(** The render that follows a handler: the effect runs when a dependency
    changed.  (The render caused by the effect itself changes none.) *)
Definition rerender (rnd : nat -> nat -> Rand) (prev next : World) : World :=
  if depsChanged (gameState prev) (gameState next) then initPlayers rnd next
  else next.

(** ** What is rendered *)

(** [gameState.winningLine?.includes(index)] in [renderCell]: the cell is
    drawn as a cell of the winning line ([undefined], which is falsy, when
    there is no line). *)
Definition isWinningCell (gs : GameState) (index : nat) : bool :=
  match winningLine gs with
  | Some line => existsb (Nat.eqb index) line
  | None => false
  end.

(** [gameState.winner ? ... : ...]: the banner "Player n Wins!" replaces
    the turn indicator, and the button "Play Again" is rendered. *)
Definition winnerShown (gs : GameState) : bool :=
  match winner gs with
  | Some n => negb (n =? 0)
  | None => false
  end.

(** ** The component as a transition system *)

Inductive Action : Type :=
| CellClick (index : nat) (r : Rand)
| StartGame
| ResetGame
| CategoryChange (playerId : nat) (c : Category).

Definition handle (a : Action) (w : World) : World :=
  match a with
  | CellClick index r => handleCellClick index r w
  | StartGame => startGame w
  | ResetGame => resetGame w
  | CategoryChange playerId c => handleCategoryChange playerId c w
  end.

(** What the markup offers.  The category buttons exist on the setup card
    only (rendered when [!gameState.gameStarted]), for players 1 and 2, and
    the button of player 2 is disabled for the category of player 1.  Cell
    clicks and the start and reset buttons are taken at any time: the
    properties below do not depend on when they are offered. *)
Definition offered (w : World) (a : Action) : bool :=
  match a with
  | CategoryChange playerId c =>
      negb (gameStarted (gameState w))
      && ((playerId =? 1)
          || ((playerId =? 2) && negb (Category_eqb (player1Category (gameState w)) c)))
  | _ => true
  end.

Definition step (rnd : nat -> nat -> Rand) (a : Action) (w : World) : World :=
  rerender rnd w (handle a w).

(** The states the component can be in. *)
Inductive reachable : World -> Prop :=
| reachable_init : reachable initialWorld
| reachable_step : forall w a rnd,
    reachable w -> offered w a = true -> reachable (step rnd a w).

(** A run of the component from a given state, for concrete scenarios:
    every action comes with the random source of the effect. *)
Fixpoint run (w : World) (l : list (Action * (nat -> nat -> Rand))) : World :=
  match l with
  | [] => w
  | (a, rnd) :: rest => run (step rnd a w) rest
  end.

Fixpoint allOffered (w : World) (l : list (Action * (nat -> nat -> Rand))) : bool :=
  match l with
  | [] => true
  | (a, rnd) :: rest => offered w a && allOffered (step rnd a w) rest
  end.

(** A random source that always yields 0, for the scenarios. *)
Definition zero : Rand := {| numer := 0; slack := 0 |}.
Definition zeros : nat -> nat -> Rand := fun _ _ => zero.

(** The clicks on the cells of [l], one after the other. *)
Definition clicks (l : list nat) : list (Action * (nat -> nat -> Rand)) :=
  map (fun i => (CellClick i zero, zeros)) l.

(** * Vocabulary of the properties *)

(** The three cells of a line hold symbols, and the three symbols are in
    the list of category [c] (they need not be the same symbol). *)
Definition lineOf (c : Category) (b : list Val) (x y z : nat) : Prop :=
  exists sx sy sz,
    cell b x = Str sx /\ cell b y = Str sy /\ cell b z = Str sz
    /\ In sx (emojiCategories c) /\ In sy (emojiCategories c)
    /\ In sz (emojiCategories c).

(** What the callback of [updatePlayers] does to the queue of the current
    player and to the board. *)
Definition enqueue (q : list Placed) (index : nat) (e : Val) (b : list Val)
  : list Placed * list Val :=
  let newPlacedEmojis := q ++ [ {| position := index; emoji := e |} ] in
  if 3 <? length newPlacedEmojis then
    (tl newPlacedEmojis,
     setCell b (match newPlacedEmojis with o :: _ => position o | [] => 0 end) Null)
  else (newPlacedEmojis, b).

(** Every cell of the board that is not empty is recorded, with what it
    holds, in the list [l] of placements. *)
Definition Tracked (b : list Val) (l : list Placed) : Prop :=
  forall i, i < 9 -> cell b i <> Null ->
    exists x, In x l /\ position x = i /\ emoji x = cell b i.

(** The cells of the board that are not empty. *)
Definition occupiedCells (b : list Val) : list nat :=
  filter (fun i => negb (isNull (cell b i))) (seq 0 9).

Definition boardFull (b : list Val) : bool :=
  forallb (fun i => negb (isNull (cell b i))) (seq 0 9).

Definition Val_eqb (u v : Val) : bool :=
  match u, v with
  | Undefined, Undefined => true
  | Null, Null => true
  | Str s, Str t => String.eqb s t
  | _, _ => false
  end.

(** The cells of the board that are occupied by a placement recorded in
    the queue [q]: the cell at the position of the record holds its emoji. *)
Definition cellsOf (q : list Placed) (b : list Val) : list nat :=
  filter (fun i =>
            negb (isNull (cell b i))
            && existsb (fun x => (position x =? i) && Val_eqb (emoji x) (cell b i)) q)
         (seq 0 9).

(** The cells of the board that hold a symbol of the category [c]. *)
Definition cellsInCategory (c : Category) (b : list Val) : list nat :=
  filter (fun i => includes (emojiCategories c) (cell b i)) (seq 0 9).

(** The two players [p1] and [p2] and the game state [gs] fit together. *)
Record Consistent (gs : GameState) (p1 p2 : Player) : Prop := {
  c_id1 : id p1 = 1;
  c_id2 : id p2 = 2;
  c_turn : currentPlayer gs = 1 \/ currentPlayer gs = 2;
  c_board : length (board gs) = 9;
  c_len1 : length (placedEmojis p1) <= 3;
  c_len2 : length (placedEmojis p2) <= 3;
  c_pos : forall x, In x (placedEmojis p1 ++ placedEmojis p2) -> position x < 9;
  c_tracked : Tracked (board gs) (placedEmojis p1 ++ placedEmojis p2);
  c_sym1 : forall x, In x (placedEmojis p1) ->
             exists s, emoji x = Str s /\ In s (emojiCategories (player1Category gs));
  c_sym2 : forall x, In x (placedEmojis p2) ->
             exists s, emoji x = Str s /\ In s (emojiCategories (player2Category gs));
  c_emojis : gameStarted gs = true ->
             emojis p1 <> [] /\ incl (emojis p1) (emojiCategories (player1Category gs))
             /\ emojis p2 <> [] /\ incl (emojis p2) (emojiCategories (player2Category gs));
  c_idle : gameStarted gs = false -> placedEmojis p1 = [] /\ placedEmojis p2 = []
}.

Definition Inv (w : World) : Prop :=
  exists p1 p2, players w = [p1; p2] /\ Consistent (gameState w) p1 p2.

(** The action starts a game that is started already: the button "Play
    Again", for which the effect does not run. *)
Definition restarts (w : World) (a : Action) : bool :=
  match a with
  | StartGame => gameStarted (gameState w)
  | _ => false
  end.

(** The states reached without restarting a started game. *)
Inductive fresh : World -> Prop :=
| fresh_init : fresh initialWorld
| fresh_step : forall w a rnd,
    fresh w -> offered w a = true -> restarts w a = false -> fresh (step rnd a w).

(** Every record of the queues [l] is on the board, and no two records
    are for the same cell. *)
Definition OnBoard (b : list Val) (l : list Placed) : Prop :=
  (forall x, In x l -> cell b (position x) = emoji x /\ emoji x <> Null)
  /\ NoDup (map position l).

Definition Exact (w : World) : Prop :=
  exists p1 p2,
    players w = [p1; p2] /\ Consistent (gameState w) p1 p2
    /\ OnBoard (board (gameState w)) (placedEmojis p1 ++ placedEmojis p2).

(** Start, then player 1 on 0 and 1, player 2 on 3 and 4: player 1 is to
    move and cell 2 completes the top row. *)
Definition beforeWin : World :=
  run initialWorld ((StartGame, zeros) :: clicks [0; 3; 1; 4]).

(** The same game won by player 1 on cell 2, followed by the button
    "Play Again". *)
Definition afterPlayAgain : World :=
  run initialWorld ((StartGame, zeros) :: clicks [0; 3; 1; 4; 2] ++ [(StartGame, zeros)]).

(** On the setup card player 1 picks the category player 2 has. *)
Definition sameCategories : World :=
  run initialWorld [(CategoryChange 1 space, zeros)].

(** With both players on one category: start, then cells 0, 1 and 2. *)
Definition sharedTopRow : World :=
  run sameCategories ((StartGame, zeros) :: clicks [0; 1; 2]).

(** Player 1 picks the animals and the game is started. *)
Definition animalsGame : World :=
  run initialWorld [(CategoryChange 1 animals, zeros); (StartGame, zeros)].

(** Six moves without a line: player 1 holds 0, 1 and 8, player 2 holds
    3, 4 and 6, and player 1 is to move. *)
Definition sixMoves : World :=
  run initialWorld ((StartGame, zeros) :: clicks [0; 3; 1; 4; 8; 6]).

(** Every action of the run is offered and none restarts a started game. *)
Fixpoint allFresh (w : World) (l : list (Action * (nat -> nat -> Rand))) : bool :=
  match l with
  | [] => true
  | (a, rnd) :: rest =>
      offered w a && negb (restarts w a) && allFresh (step rnd a w) rest
  end.

(** The category the effect binds to the player with id [playerId]. *)
Definition boundCategory (gs : GameState) (playerId : nat) : Category :=
  if playerId =? 1 then player1Category gs else player2Category gs.

(** The winner and the line in the state are what [checkWinner] finds on
    the board of the state, and the board is empty on the setup card. *)
Definition Settled (w : World) : Prop :=
  (winner (gameState w), winningLine (gameState w))
    = checkWinner (gameState w) (board (gameState w))
  /\ (gameStarted (gameState w) = false -> board (gameState w) = repeat Null 9).

(** In a started game every player holds a shuffle of the category bound
    to the player. *)
Definition Dealt (w : World) : Prop :=
  gameStarted (gameState w) = true ->
  forall p, In p (players w) ->
    Permutation (emojis p) (emojiCategories (boundCategory (gameState w) (id p)))
    /\ category p = boundCategory (gameState w) (id p).

(** The cells [renderCell] draws as cells of the winning line. *)
Definition highlighted (gs : GameState) : list nat :=
  filter (isWinningCell gs) (seq 0 9).


(** The draw that picks the entry [k] of a list of [n] entries. *)
Definition pick (k n : nat) : Rand := {| numer := k; slack := n - k - 1 |}.

(** The game of [beforeWin] won by player 1 on cell 2. *)
Definition wonGame : World :=
  run initialWorld ((StartGame, zeros) :: clicks [0; 3; 1; 4; 2]).

(** * Properties *)

(** ** Arrays *)

Lemma cell_setCell (b : list Val) (i j : nat) (v : Val) :
  cell (setCell b i v) j = if j =? i then v else cell b j.
Proof.
  unfold cell. revert i j.
  induction b as [|x b IH]; intros i.
  - induction i as [|i IHi]; intros [|j]; simpl; try reflexivity.
    + now destruct j.
    + rewrite IHi. now destruct j.
  - destruct i as [|i]; intros [|j]; simpl; try reflexivity. apply IH.
Qed.

Lemma length_setCell (b : list Val) (i : nat) (v : Val) :
  length (setCell b i v) = Nat.max (length b) (S i).
Proof.
  revert i. induction b as [|x b IH]; intros i.
  - induction i as [|i IHi]; simpl in *; [reflexivity | now rewrite IHi].
  - destruct i as [|i]; simpl; [lia | rewrite IH; lia].
Qed.

Lemma cell_repeat_Null (n i : nat) : i < n -> cell (repeat Null n) i = Null.
Proof.
  unfold cell. revert i. induction n as [|n IH]; intros [|i] H; simpl; try lia.
  - reflexivity.
  - apply IH. lia.
Qed.

Lemma cell_outside (b : list Val) (i : nat) : length b <= i -> cell b i = Undefined.
Proof. intros H. unfold cell. now apply nth_overflow. Qed.

Lemma includes_In (l : list string) (v : Val) :
  includes l v = true <-> exists s, v = Str s /\ In s l.
Proof.
  destruct v as [| |s]; simpl.
  - split; [discriminate | intros (s & H & _); discriminate].
  - split; [discriminate | intros (s & H & _); discriminate].
  - rewrite existsb_exists. split.
    + intros (x & Hin & Heq). apply String.eqb_eq in Heq. subst x. eauto.
    + intros (x & Heq & Hin). injection Heq as <-. exists s. split; [assumption|].
      apply String.eqb_refl.
Qed.

(** No category contains the empty string, so a cell that holds a symbol
    of a category is truthy. *)
Lemma includes_truthy (c : Category) (v : Val) :
  includes (emojiCategories c) v = true -> truthy v = true.
Proof.
  destruct v as [| |s]; simpl; try discriminate.
  destruct (String.eqb s "") eqn:E; [|reflexivity].
  apply String.eqb_eq in E. subst s. destruct c; discriminate.
Qed.

(** ** The random source *)

Lemma floorTimes_lt (r : Rand) (n : nat) : 0 < n -> floorTimes r n < n.
Proof.
  intros Hn. unfold floorTimes.
  apply Nat.Div0.div_lt_upper_bound. nia.
Qed.

(** ** getRandomEmoji (C10) *)

Lemma placeholder_in_no_category (c : Category) : ~ In placeholder (emojiCategories c).
Proof.
  intros H.
  assert (E : includes (emojiCategories c) (Str placeholder) = true)
    by (apply includes_In; eauto).
  destruct c; discriminate E.
Qed.

Lemma getRandomEmoji_cases (ps : list Player) (r : Rand) (playerId : nat) :
  match find (fun p => id p =? playerId) ps with
  | None => getRandomEmoji ps r playerId = Str placeholder
  | Some player =>
      (emojis player = [] -> getRandomEmoji ps r playerId = Str placeholder)
      /\ (emojis player <> [] ->
          exists s, getRandomEmoji ps r playerId = Str s /\ In s (emojis player))
  end.
Proof.
  unfold getRandomEmoji.
  destruct (find (fun p => id p =? playerId) ps) as [player|]; [|reflexivity].
  split.
  - intros ->. reflexivity.
  - intros Hne.
    destruct (length (emojis player) =? 0) eqn:E.
    + apply Nat.eqb_eq in E. destruct (emojis player); [congruence | discriminate].
    + apply Nat.eqb_neq in E.
      assert (Hlt : floorTimes r (length (emojis player)) < length (emojis player))
        by (apply floorTimes_lt; lia).
      destruct (nth_error (emojis player) (floorTimes r (length (emojis player))))
        as [e|] eqn:Hn.
      * exists e. split; [reflexivity|]. eapply nth_error_In; eassumption.
      * apply nth_error_None in Hn. lia.
Qed.

(** C10. [getRandomEmoji] is total and never yields [undefined]: when no
    player has the id, or the emoji list of the player found is empty, the
    result is the placeholder, and otherwise it is a member of that list;
    the placeholder is in the list of no category, so it does not pass the
    membership test of [checkWinner]. *)
Theorem getRandomEmoji_total (ps : list Player) (r : Rand) (playerId : nat) :
  (exists s, getRandomEmoji ps r playerId = Str s)
  /\ match find (fun p => id p =? playerId) ps with
     | None => getRandomEmoji ps r playerId = Str placeholder
     | Some player =>
         (emojis player = [] -> getRandomEmoji ps r playerId = Str placeholder)
         /\ (emojis player <> [] ->
             exists s, getRandomEmoji ps r playerId = Str s /\ In s (emojis player))
     end
  /\ (forall c, includes (emojiCategories c) (Str placeholder) = false).
Proof.
  pose proof (getRandomEmoji_cases ps r playerId) as Hcore.
  split; [|split].
  - destruct (find (fun p => id p =? playerId) ps) as [player|]; [|eauto].
    destruct Hcore as [He Hn].
    destruct (emojis player) as [|x l] eqn:El.
    + exists placeholder. now apply He.
    + destruct Hn as (s & Hs & _); [discriminate | eauto].
  - exact Hcore.
  - intros c. destruct c; reflexivity.
Qed.

(** ** checkWinner (C6, C8) *)

Lemma lineOf_includes (c : Category) (b : list Val) (x y z : nat) :
  lineOf c b x y z <->
  includes (emojiCategories c) (cell b x)
  && includes (emojiCategories c) (cell b y)
  && includes (emojiCategories c) (cell b z) = true.
Proof.
  rewrite !andb_true_iff, !includes_In. unfold lineOf. split.
  - intros (sx & sy & sz & Hx & Hy & Hz & Ix & Iy & Iz). repeat split; eauto.
  - intros [[(sx & Hx & Ix) (sy & Hy & Iy)] (sz & Hz & Iz)].
    exists sx, sy, sz. repeat split; assumption.
Qed.

Lemma lineOf_truthy (c : Category) (b : list Val) (x y z : nat) :
  lineOf c b x y z ->
  truthy (cell b x) && truthy (cell b y) && truthy (cell b z) = true.
Proof.
  intros H. apply lineOf_includes in H.
  rewrite !andb_true_iff in *. destruct H as [[Hx Hy] Hz].
  repeat split; eapply includes_truthy; eassumption.
Qed.

(** The lists of two different categories share no symbol. *)
Lemma categories_disjoint (c1 c2 : Category) (s : string) :
  In s (emojiCategories c1) -> In s (emojiCategories c2) -> c1 = c2.
Proof.
  intros H1 H2.
  assert (D : Category_eqb c1 c2 = false ->
              forallb (fun x => negb (existsb (String.eqb x) (emojiCategories c2)))
                      (emojiCategories c1) = true)
    by (destruct c1, c2; intros E; try discriminate E; reflexivity).
  destruct (Category_eqb c1 c2) eqn:E.
  - destruct c1, c2; try discriminate E; reflexivity.
  - specialize (D eq_refl). rewrite forallb_forall in D.
    specialize (D s H1). apply negb_true_iff in D.
    assert (T : existsb (String.eqb s) (emojiCategories c2) = true).
    { apply existsb_exists. exists s. split; [assumption | apply String.eqb_refl]. }
    congruence.
Qed.


Lemma comboWinner_cases (gs : GameState) (b : list Val) (x y z : nat) :
  comboWinner gs b [x; y; z] =
  if includes (emojiCategories (player1Category gs)) (cell b x)
     && includes (emojiCategories (player1Category gs)) (cell b y)
     && includes (emojiCategories (player1Category gs)) (cell b z)
  then Some 1
  else if includes (emojiCategories (player2Category gs)) (cell b x)
          && includes (emojiCategories (player2Category gs)) (cell b y)
          && includes (emojiCategories (player2Category gs)) (cell b z)
  then Some 2
  else None.
Proof.
  unfold comboWinner.
  destruct (truthy (cell b x) && truthy (cell b y) && truthy (cell b z)) eqn:T;
    [reflexivity|].
  destruct (includes (emojiCategories (player1Category gs)) (cell b x)
            && includes (emojiCategories (player1Category gs)) (cell b y)
            && includes (emojiCategories (player1Category gs)) (cell b z)) eqn:E1.
  { apply lineOf_includes, lineOf_truthy in E1. congruence. }
  destruct (includes (emojiCategories (player2Category gs)) (cell b x)
            && includes (emojiCategories (player2Category gs)) (cell b y)
            && includes (emojiCategories (player2Category gs)) (cell b z)) eqn:E2.
  { apply lineOf_includes, lineOf_truthy in E2. congruence. }
  reflexivity.
Qed.


(** Three different symbols of one category on a line are a win. *)
Example three_different_symbols_win :
  comboWinner initialGameState
    [Str "💻"; Str "📱"; Str "🎮"; Null; Null; Null; Null; Null; Null] [0; 1; 2]
  = Some 1.
Proof. reflexivity. Qed.

Section CheckWinnerLoop.

Variable gs : GameState.
Variable b : list Val.

Lemma checkWinnerIn_first (combos : list (list nat)) (p : nat) (line : list nat) :
  checkWinnerIn gs b combos = (Some p, Some line) <->
  exists before after,
    combos = before ++ line :: after
    /\ comboWinner gs b line = Some p
    /\ forall c, In c before -> comboWinner gs b c = None.
Proof.
  induction combos as [|combo rest IH]; simpl.
  - split; [discriminate|]. intros (before & after & H & _). now destruct before.
  - destruct (comboWinner gs b combo) as [q|] eqn:E.
    + split.
      * intros H. injection H as <- <-. exists [], rest. repeat split; auto.
        intros c [].
      * intros (before & after & Hc & Hw & Hb). destruct before as [|c0 before].
        -- simpl in Hc. injection Hc as <- <-. congruence.
        -- simpl in Hc. injection Hc as <- _.
           rewrite (Hb combo (or_introl eq_refl)) in E. discriminate.
    + rewrite IH. split.
      * intros (before & after & Hc & Hw & Hb). exists (combo :: before), after.
        subst rest. repeat split; auto. intros c [<-|Hin]; auto.
      * intros (before & after & Hc & Hw & Hb). destruct before as [|c0 before].
        -- simpl in Hc. injection Hc as <- <-. congruence.
        -- simpl in Hc. injection Hc as <- ->. exists before, after.
           repeat split; auto. intros c Hin. apply Hb. now right.
Qed.

Lemma checkWinnerIn_none (combos : list (list nat)) :
  checkWinnerIn gs b combos = (None, None) <->
  forall c, In c combos -> comboWinner gs b c = None.
Proof.
  induction combos as [|combo rest IH]; simpl.
  - split; [intros _ c [] | reflexivity].
  - destruct (comboWinner gs b combo) as [q|] eqn:E.
    + split; [discriminate|]. intros H. rewrite (H combo (or_introl eq_refl)) in E.
      discriminate.
    + rewrite IH. split.
      * intros H c [<-|Hin]; auto.
      * intros H c Hin. apply H. now right.
Qed.

Lemma checkWinnerIn_shape (combos : list (list nat)) :
  checkWinnerIn gs b combos = (None, None)
  \/ exists p line, checkWinnerIn gs b combos = (Some p, Some line) /\ In line combos.
Proof.
  induction combos as [|combo rest IH]; simpl; [now left|].
  destruct (comboWinner gs b combo) as [q|].
  - right. exists q, combo. auto.
  - destruct IH as [H|(p & line & H & Hin)]; [now left|].
    right. exists p, line. auto.
Qed.

(** C8. The winning triples are the three rows, the three columns and the
    two diagonals, in this order.  [checkWinner] reports a player and a
    line exactly when that line is the first triple, in this order, that is
    a win, and it is a win for that player; it reports no winner exactly
    when no triple is a win.  The result holds at most one line. *)
Theorem checkWinner_first_in_order :
  winningCombinations =
    [[0; 1; 2]; [3; 4; 5]; [6; 7; 8]; [0; 3; 6]; [1; 4; 7]; [2; 5; 8]; [0; 4; 8]; [2; 4; 6]]
  /\ (forall p line,
        checkWinner gs b = (Some p, Some line) <->
        exists before after,
          winningCombinations = before ++ line :: after
          /\ comboWinner gs b line = Some p
          /\ forall c, In c before -> comboWinner gs b c = None)
  /\ (checkWinner gs b = (None, None) <->
      forall c, In c winningCombinations -> comboWinner gs b c = None)
  /\ (checkWinner gs b = (None, None)
      \/ exists p line, checkWinner gs b = (Some p, Some line)
                        /\ In line winningCombinations).
Proof.
  split; [reflexivity|]. split; [|split].
  - intros p line. apply checkWinnerIn_first.
  - apply checkWinnerIn_none.
  - apply checkWinnerIn_shape.
Qed.

End CheckWinnerLoop.

(** A board on which the top row and the left column are complete at once:
    only the row, which comes first, is reported. *)
Example two_lines_first_reported :
  checkWinner initialGameState
    [Str "💻"; Str "📱"; Str "🎮"; Str "🎧"; Null; Null; Str "📷"; Null; Null]
  = (Some 1, Some [0; 1; 2]).
Proof. reflexivity. Qed.

(** ** Runs of the component *)

Lemma reachable_run (w : World) (l : list (Action * (nat -> nat -> Rand))) :
  reachable w -> allOffered w l = true -> reachable (run w l).
Proof.
  revert w. induction l as [|[a rnd] rest IH]; intros w Hw Hl; simpl in *.
  - exact Hw.
  - apply andb_true_iff in Hl. destruct Hl as [Ha Hrest].
    apply IH; [|exact Hrest]. now apply reachable_step.
Qed.

Lemma depsChanged_same (g1 g2 : GameState) :
  gameStarted g1 = gameStarted g2 ->
  player1Category g1 = player1Category g2 ->
  player2Category g1 = player2Category g2 ->
  depsChanged g1 g2 = false.
Proof.
  intros H1 H2 H3. unfold depsChanged. rewrite H1, H2, H3.
  rewrite Bool.eqb_reflx.
  now destruct (player1Category g2), (player2Category g2).
Qed.

Lemma handleCellClick_deps (index : nat) (r : Rand) (w : World) :
  gameStarted (gameState (handleCellClick index r w)) = gameStarted (gameState w)
  /\ player1Category (gameState (handleCellClick index r w)) = player1Category (gameState w)
  /\ player2Category (gameState (handleCellClick index r w)) = player2Category (gameState w).
Proof.
  unfold handleCellClick. destruct (ignored (gameState w) index); [auto|].
  destruct (updatePlayers _ _ _ _ _) as [ups nb]. simpl. auto.
Qed.

(** A click never triggers the effect. *)
Lemma step_CellClick (rnd : nat -> nat -> Rand) (index : nat) (r : Rand) (w : World) :
  step rnd (CellClick index r) w = handleCellClick index r w.
Proof.
  unfold step, rerender. simpl.
  destruct (handleCellClick_deps index r w) as (H1 & H2 & H3).
  rewrite depsChanged_same; auto.
Qed.

Lemma Category_eqb_refl (c : Category) : Category_eqb c c = true.
Proof. now destruct c. Qed.

(** The start button: the effect runs when the game was not started, and
    does not run when it was (the button "Play Again"). *)
Lemma step_StartGame (rnd : nat -> nat -> Rand) (w : World) :
  step rnd StartGame w =
  if gameStarted (gameState w) then startGame w else initPlayers rnd (startGame w).
Proof.
  unfold step, rerender, depsChanged. simpl.
  rewrite !Category_eqb_refl. now destruct (gameStarted (gameState w)).
Qed.

Lemma step_ResetGame (rnd : nat -> nat -> Rand) (w : World) :
  step rnd ResetGame w = resetGame w.
Proof.
  unfold step, rerender, initPlayers. simpl. now destruct (depsChanged _ _).
Qed.

Lemma step_CategoryChange (rnd : nat -> nat -> Rand) (playerId : nat) (c : Category)
    (w : World) :
  gameStarted (gameState w) = false ->
  step rnd (CategoryChange playerId c) w = handleCategoryChange playerId c w.
Proof.
  intros Hs. unfold step, rerender, initPlayers. simpl.
  destruct (depsChanged _ _); [|reflexivity].
  destruct (playerId =? 1); simpl; now rewrite Hs.
Qed.

(** The guard lets a click through when the game is started, no winner is
    set and the cell is empty. *)
Lemma ignored_legal (gs : GameState) (index : nat) :
  gameStarted gs = true -> winner gs = None -> cell (board gs) index = Null ->
  ignored gs index = false.
Proof. intros Hs Hw Hc. unfold ignored. now rewrite Hs, Hw, Hc. Qed.

(** ** Rejected clicks (C5) *)

(** C5. A click while the game is not started, or after a winner is set,
    or on an index past the end of the board (the board has 9 cells, so an
    index outside 0..8), or on a cell that is not empty, is ignored: the
    handler returns normally and the whole state of the component (the game
    state with its board, turn, winner, winning line and started flag, the
    players with their queues, the scores) is the state before. *)
Theorem rejected_click_changes_nothing (w : World) (index : nat) (r : Rand) :
  gameStarted (gameState w) = false
  \/ winner (gameState w) <> None
  \/ length (board (gameState w)) <= index
  \/ cell (board (gameState w)) index <> Null ->
  handleCellClick index r w = w
  /\ forall rnd, step rnd (CellClick index r) w = w.
Proof.
  intros H.
  assert (G : ignored (gameState w) index = true).
  { unfold ignored. destruct H as [H|[H|[H|H]]].
    - now rewrite H.
    - destruct (winner (gameState w)); [|congruence].
      now rewrite !orb_true_r.
    - rewrite (cell_outside _ _ H). simpl. now rewrite orb_true_r.
    - destruct (cell (board (gameState w)) index); try congruence;
        simpl; now rewrite orb_true_r. }
  assert (E : handleCellClick index r w = w)
    by (unfold handleCellClick; now rewrite G).
  split; [exact E|]. intros rnd. now rewrite step_CellClick.
Qed.

(** ** Accepted clicks: turn and winner (C3) *)

(** C3, as the code has it.  After a click that is not ignored, the winner
    and the winning line are what [checkWinner] finds on the new board (both
    set or both unset), and the current player is the other player (2 after
    1, 1 otherwise) whether or not a winner was found: the turn is advanced
    on a winning move too. *)
Theorem accepted_click_switches_player (w : World) (index : nat) (r : Rand) :
  gameStarted (gameState w) = true ->
  winner (gameState w) = None ->
  cell (board (gameState w)) index = Null ->
  let gs' := gameState (handleCellClick index r w) in
  currentPlayer gs' = (if currentPlayer (gameState w) =? 1 then 2 else 1)
  /\ currentPlayer gs' <> currentPlayer (gameState w)
  /\ (winner gs', winningLine gs') = checkWinner (gameState w) (board gs')
  /\ (winner gs' = None <-> winningLine gs' = None).
Proof.
  intros Hs Hw Hc. unfold handleCellClick.
  rewrite (ignored_legal _ _ Hs Hw Hc).
  destruct (updatePlayers _ _ _ _ _) as [ups nb]. simpl.
  split; [reflexivity|]. split; [|split].
  - destruct (currentPlayer (gameState w) =? 1) eqn:E.
    + apply Nat.eqb_eq in E. lia.
    + apply Nat.eqb_neq in E. lia.
  - now destruct (checkWinner (gameState w) nb).
  - unfold checkWinner.
    destruct (checkWinnerIn_shape (gameState w) nb winningCombinations)
      as [H|(p & line & H & _)]; rewrite H; simpl.
    + tauto.
    + split; discriminate.
Qed.

(** ** startGame and resetGame (C2, C9) *)

(** C2, as the code has it.  [startGame] does not look at the categories
    and cannot fail: for every state, the two categories equal or not, the
    handler and the render that follows it set the started flag and leave
    the two categories as they are.  In particular a game with both players
    bound to the same category is started, with that category for both. *)
Theorem startGame_always_starts (w : World) (rnd : nat -> nat -> Rand) :
  gameStarted (gameState (startGame w)) = true
  /\ player1Category (gameState (startGame w)) = player1Category (gameState w)
  /\ player2Category (gameState (startGame w)) = player2Category (gameState w)
  /\ gameState (step rnd StartGame w) = gameState (startGame w)
  /\ (player1Category (gameState w) = player2Category (gameState w) ->
      gameStarted (gameState (step rnd StartGame w)) = true
      /\ player1Category (gameState (step rnd StartGame w))
         = player2Category (gameState (step rnd StartGame w))).
Proof.
  assert (E : gameState (step rnd StartGame w) = gameState (startGame w)).
  { rewrite step_StartGame. unfold initPlayers.
    now destruct (gameStarted (gameState w)). }
  split; [reflexivity|]. split; [reflexivity|]. split; [reflexivity|].
  split; [exact E|].
  intros Heq. rewrite E. simpl. split; [reflexivity | exact Heq].
Qed.

(** C9, as the code has it.  [resetGame] returns to the setup stage with an
    empty board, no winner, player 1 to move and two players with empty
    queues, and it keeps the categories selected last (and the scores); the
    effect does not run after it. *)
Theorem resetGame_keeps_categories (w : World) :
  let w' := resetGame w in
  gameStarted (gameState w') = false
  /\ board (gameState w') = repeat Null 9
  /\ currentPlayer (gameState w') = 1
  /\ winner (gameState w') = None
  /\ winningLine (gameState w') = None
  /\ map id (players w') = [1; 2]
  /\ map placedEmojis (players w') = [[]; []]
  /\ player1Category (gameState w') = player1Category (gameState w)
  /\ player2Category (gameState w') = player2Category (gameState w)
  /\ map category (players w') = [player1Category (gameState w); player2Category (gameState w)]
  /\ scores w' = scores w
  /\ forall rnd, step rnd ResetGame w = w'.
Proof.
  simpl. repeat split. intros rnd. apply step_ResetGame.
Qed.

(** ** The queue of a player *)

Lemma updatePlayers_first (p1 p2 : Player) (index : nat) (e : Val) (b : list Val) :
  id p1 = 1 -> id p2 = 2 ->
  updatePlayers 1 index e [p1; p2] b =
  ([withPlaced p1 (fst (enqueue (placedEmojis p1) index e b)); p2],
   snd (enqueue (placedEmojis p1) index e b)).
Proof.
  intros H1 H2. unfold enqueue. simpl. rewrite H1, H2. simpl.
  now destruct (3 <? length (placedEmojis p1 ++ [ {| position := index; emoji := e |} ])).
Qed.

Lemma updatePlayers_second (p1 p2 : Player) (index : nat) (e : Val) (b : list Val) :
  id p1 = 1 -> id p2 = 2 ->
  updatePlayers 2 index e [p1; p2] b =
  ([p1; withPlaced p2 (fst (enqueue (placedEmojis p2) index e b))],
   snd (enqueue (placedEmojis p2) index e b)).
Proof.
  intros H1 H2. unfold enqueue. simpl. rewrite H1, H2. simpl.
  now destruct (3 <? length (placedEmojis p2 ++ [ {| position := index; emoji := e |} ])).
Qed.

(** The two outcomes of [enqueue] on a queue of at most three records. *)
Lemma enqueue_cases (q : list Placed) (index : nat) (e : Val) (b : list Val) :
  length q <= 3 ->
  (length q < 3
   /\ enqueue q index e b = (q ++ [ {| position := index; emoji := e |} ], b))
  \/ (exists o rest,
        q = o :: rest /\ length q = 3
        /\ enqueue q index e b =
           (rest ++ [ {| position := index; emoji := e |} ], setCell b (position o) Null)).
Proof.
  intros Hq. unfold enqueue. rewrite length_app. simpl.
  destruct (3 <? length q + 1) eqn:E.
  - apply Nat.ltb_lt in E. right. destruct q as [|o rest]; simpl in *; [lia|].
    exists o, rest. repeat split. lia.
  - apply Nat.ltb_ge in E. left. split; [lia | reflexivity].
Qed.

Lemma enqueue_length (q : list Placed) (index : nat) (e : Val) (b : list Val) :
  length q <= 3 -> length (fst (enqueue q index e b)) <= 3.
Proof.
  intros Hq.
  destruct (enqueue_cases q index e b Hq) as [[Hl ->]|(o & rest & -> & Hl & ->)];
    simpl in *; rewrite length_app; simpl; lia.
Qed.

Lemma enqueue_In (q : list Placed) (index : nat) (e : Val) (b : list Val) (x : Placed) :
  length q <= 3 ->
  In x (fst (enqueue q index e b)) ->
  In x q \/ x = {| position := index; emoji := e |}.
Proof.
  intros Hq.
  destruct (enqueue_cases q index e b Hq) as [[Hl ->]|(o & rest & -> & Hl & ->)];
    simpl; rewrite in_app_iff; simpl; intuition auto.
Qed.

Lemma enqueue_board_length (q : list Placed) (index : nat) (e : Val) (b : list Val) :
  length q <= 3 -> (forall x, In x q -> position x < length b) ->
  length (snd (enqueue q index e b)) = length b.
Proof.
  intros Hq Hp.
  destruct (enqueue_cases q index e b Hq) as [[Hl ->]|(o & rest & -> & Hl & ->)];
    simpl; [reflexivity|].
  rewrite length_setCell. specialize (Hp o (or_introl eq_refl)). lia.
Qed.

(** ** Cells and queues *)

Lemma Tracked_empty_board (l : list Placed) : Tracked (repeat Null 9) l.
Proof. intros i Hi H. now rewrite cell_repeat_Null in H. Qed.

Lemma enqueue_Tracked (q others l l' : list Placed) (index : nat) (e : Val)
    (b : list Val) :
  length q <= 3 ->
  Tracked b l ->
  (forall x, In x l -> In x q \/ In x others) ->
  (forall x, In x (fst (enqueue q index e (setCell b index e))) \/ In x others ->
             In x l') ->
  Tracked (snd (enqueue q index e (setCell b index e))) l'.
Proof.
  intros Hq Ht Hl Hl' i Hi Hc.
  destruct (enqueue_cases q index e (setCell b index e) Hq)
    as [[Hlen E]|(o & rest & -> & Hlen & E)]; rewrite E in *; simpl in *.
  - rewrite cell_setCell in *. destruct (i =? index) eqn:Ei.
    + apply Nat.eqb_eq in Ei. subst i.
      exists {| position := index; emoji := e |}. repeat split.
      apply Hl'. left. apply in_or_app. right. now left.
    + destruct (Ht i Hi Hc) as (x & Hx & Hp & He).
      exists x. repeat split; auto. apply Hl'.
      destruct (Hl x Hx) as [H|H]; [left; apply in_or_app; now left | now right].
  - rewrite !cell_setCell in *. destruct (i =? position o) eqn:Eo; [congruence|].
    apply Nat.eqb_neq in Eo. destruct (i =? index) eqn:Ei.
    + apply Nat.eqb_eq in Ei. subst i.
      exists {| position := index; emoji := e |}. repeat split.
      apply Hl'. left. apply in_or_app. right. now left.
    + destruct (Ht i Hi Hc) as (x & Hx & Hp & He).
      exists x. repeat split; auto. apply Hl'.
      destruct (Hl x Hx) as [[H|H]|H].
      * subst x. congruence.
      * left. apply in_or_app. now left.
      * now right.
Qed.

Lemma filter_NoDup_incl_length (f : nat -> bool) (l : list Placed) :
  (forall i, i < 9 -> f i = true -> In i (map position l)) ->
  length (filter f (seq 0 9)) <= length l.
Proof.
  intros H. rewrite <- (length_map position l).
  apply NoDup_incl_length.
  - apply NoDup_filter, seq_NoDup.
  - intros i Hi. apply filter_In in Hi. destruct Hi as [Hs Hf].
    apply in_seq in Hs. apply H; [lia | assumption].
Qed.

Lemma Tracked_occupied_length (b : list Val) (l : list Placed) :
  Tracked b l -> length (occupiedCells b) <= length l.
Proof.
  intros Ht. apply filter_NoDup_incl_length. intros i Hi Hf.
  apply negb_true_iff in Hf.
  destruct (Ht i Hi) as (x & Hx & Hp & _).
  - intros E. rewrite E in Hf. discriminate.
  - rewrite <- Hp. now apply in_map.
Qed.

Lemma boardFull_occupied (b : list Val) :
  boardFull b = true -> length (occupiedCells b) = 9.
Proof.
  unfold boardFull, occupiedCells. intros H.
  assert (E : forall l, forallb (fun i => negb (isNull (cell b i))) l = true ->
                        filter (fun i => negb (isNull (cell b i))) l = l).
  { induction l as [|i l IH]; simpl; [reflexivity|].
    intros Hl. apply andb_true_iff in Hl. destruct Hl as [Hi Hl].
    rewrite Hi. now rewrite IH. }
  rewrite E by assumption. apply length_seq.
Qed.

(** ** The shuffle *)

Lemma setNth_length (l : list string) (i : nat) (x : string) :
  length (setNth l i x) = length l.
Proof.
  revert i. induction l as [|y l IH]; intros [|i]; simpl; auto.
Qed.

Lemma setNth_In (l : list string) (i : nat) (x y : string) :
  In y (setNth l i x) -> y = x \/ In y l.
Proof.
  revert i. induction l as [|z l IH]; intros [|i]; simpl; try tauto.
  - intros [H|H]; auto.
  - intros [H|H]; auto. destruct (IH i H); auto.
Qed.

Lemma swap_length (l : list string) (i j : nat) : length (swap l i j) = length l.
Proof.
  unfold swap. destruct (nth_error l i), (nth_error l j); try reflexivity.
  now rewrite !setNth_length.
Qed.

Lemma swap_In (l : list string) (i j : nat) (y : string) :
  In y (swap l i j) -> In y l.
Proof.
  unfold swap.
  destruct (nth_error l i) as [a|] eqn:Ei, (nth_error l j) as [b|] eqn:Ej; auto.
  intros H. apply nth_error_In in Ei, Ej.
  apply setNth_In in H. destruct H as [->|H]; [assumption|].
  apply setNth_In in H. destruct H as [->|H]; assumption.
Qed.

Lemma shuffleFrom_length (rnd : nat -> Rand) (i : nat) (l : list string) :
  length (shuffleFrom rnd i l) = length l.
Proof.
  revert l. induction i as [|i IH]; intros l; simpl; [reflexivity|].
  now rewrite IH, swap_length.
Qed.

Lemma shuffleFrom_In (rnd : nat -> Rand) (i : nat) (l : list string) (y : string) :
  In y (shuffleFrom rnd i l) -> In y l.
Proof.
  revert l. induction i as [|i IH]; intros l; simpl; [auto|].
  intros H. apply IH in H. eapply swap_In; eassumption.
Qed.

(** The shuffled list has the length of the category list and holds
    symbols of the category only. *)
Lemma shuffle_category (rnd : nat -> Rand) (c : Category) :
  shuffle rnd (emojiCategories c) <> []
  /\ incl (shuffle rnd (emojiCategories c)) (emojiCategories c).
Proof.
  split.
  - intros E. apply (f_equal (@length string)) in E.
    unfold shuffle in E. rewrite shuffleFrom_length in E. destruct c; discriminate E.
  - intros y. apply shuffleFrom_In.
Qed.

(** ** The states the component goes through *)

Lemma Inv_initialWorld : Inv initialWorld.
Proof.
  eexists _, _. split; [reflexivity|].
  constructor; simpl; auto; try lia; try tauto; try discriminate.
  apply Tracked_empty_board.
Qed.

Lemma ignored_false (gs : GameState) (index : nat) :
  ignored gs index = false ->
  gameStarted gs = true /\ cell (board gs) index = Null /\ winner gs = None
  /\ index < length (board gs).
Proof.
  unfold ignored. intros H.
  apply orb_false_iff in H. destruct H as [H Hw].
  apply orb_false_iff in H. destruct H as [Hs Hc].
  apply negb_false_iff in Hs, Hc.
  assert (Hn : cell (board gs) index = Null)
    by (destruct (cell (board gs) index); try discriminate; reflexivity).
  repeat split; auto.
  - now destruct (winner gs).
  - destruct (Nat.lt_ge_cases index (length (board gs))) as [H|H]; [assumption|].
    rewrite (cell_outside _ _ H) in Hn. discriminate.
Qed.

(** What the current player draws when the game is started. *)
Lemma drawn_first (gs : GameState) (p1 p2 : Player) (r : Rand) :
  Consistent gs p1 p2 -> gameStarted gs = true ->
  exists s, getRandomEmoji [p1; p2] r 1 = Str s
            /\ In s (emojiCategories (player1Category gs)).
Proof.
  intros C Hs. destruct (c_emojis _ _ _ C Hs) as (Hn & Hi & _).
  pose proof (getRandomEmoji_cases [p1; p2] r 1) as H. simpl in H.
  rewrite (c_id1 _ _ _ C) in H. simpl in H.
  destruct H as [_ H]. destruct (H Hn) as (s & E & Hin). eauto.
Qed.

Lemma drawn_second (gs : GameState) (p1 p2 : Player) (r : Rand) :
  Consistent gs p1 p2 -> gameStarted gs = true ->
  exists s, getRandomEmoji [p1; p2] r 2 = Str s
            /\ In s (emojiCategories (player2Category gs)).
Proof.
  intros C Hs. destruct (c_emojis _ _ _ C Hs) as (_ & _ & Hn & Hi).
  pose proof (getRandomEmoji_cases [p1; p2] r 2) as H. simpl in H.
  rewrite (c_id1 _ _ _ C), (c_id2 _ _ _ C) in H. simpl in H.
  destruct H as [_ H]. destruct (H Hn) as (s & E & Hin). eauto.
Qed.

Lemma Inv_handleCellClick (index : nat) (r : Rand) (w : World) :
  Inv w -> Inv (handleCellClick index r w).
Proof.
  intros (p1 & p2 & Hp & C). unfold handleCellClick.
  destruct (ignored (gameState w) index) eqn:G; [exists p1, p2; auto|].
  destruct (ignored_false _ _ G) as (Hs & Hc & Hw & Hi).
  pose proof (c_board _ _ _ C) as Hb. rewrite Hb in Hi.
  assert (Hb0 : forall e, length (setCell (board (gameState w)) index e) = 9)
    by (intros e; rewrite length_setCell; lia).
  rewrite Hp. destruct (c_turn _ _ _ C) as [T|T]; rewrite T.
  - rewrite (updatePlayers_first _ _ _ _ _ (c_id1 _ _ _ C) (c_id2 _ _ _ C)).
    destruct (drawn_first _ _ _ r C Hs) as (s & He & Hin). rewrite He.
    eexists _, p2. split; [reflexivity|].
    constructor; simpl.
    + apply C.
    + apply C.
    + now right.
    + rewrite enqueue_board_length; [apply Hb0 | apply C |].
      intros x Hx. rewrite Hb0. apply (c_pos _ _ _ C). apply in_or_app. now left.
    + apply enqueue_length, C.
    + apply C.
    + intros x Hx. apply in_app_or in Hx. destruct Hx as [Hx|Hx].
      * apply enqueue_In in Hx; [|apply C]. destruct Hx as [Hx| ->]; [|exact Hi].
        apply (c_pos _ _ _ C). apply in_or_app. now left.
      * apply (c_pos _ _ _ C). apply in_or_app. now right.
    + eapply enqueue_Tracked with (others := placedEmojis p2);
        [apply C | apply (c_tracked _ _ _ C) | |].
      * intros x Hx. now apply in_app_or.
      * intros x Hx. now apply in_or_app.
    + intros x Hx. apply enqueue_In in Hx; [|apply C].
      destruct Hx as [Hx| ->]; [now apply (c_sym1 _ _ _ C) | simpl; eauto].
    + apply C.
    + apply C.
    + intros E. congruence.
  - rewrite (updatePlayers_second _ _ _ _ _ (c_id1 _ _ _ C) (c_id2 _ _ _ C)).
    destruct (drawn_second _ _ _ r C Hs) as (s & He & Hin). rewrite He.
    eexists p1, _. split; [reflexivity|].
    constructor; simpl.
    + apply C.
    + apply C.
    + now left.
    + rewrite enqueue_board_length; [apply Hb0 | apply C |].
      intros x Hx. rewrite Hb0. apply (c_pos _ _ _ C). apply in_or_app. now right.
    + apply C.
    + apply enqueue_length, C.
    + intros x Hx. apply in_app_or in Hx. destruct Hx as [Hx|Hx].
      * apply (c_pos _ _ _ C). apply in_or_app. now left.
      * apply enqueue_In in Hx; [|apply C]. destruct Hx as [Hx| ->]; [|exact Hi].
        apply (c_pos _ _ _ C). apply in_or_app. now right.
    + eapply enqueue_Tracked with (others := placedEmojis p1);
        [apply C | apply (c_tracked _ _ _ C) | |].
      * intros x Hx. apply in_app_or in Hx. tauto.
      * intros x Hx. apply in_or_app. tauto.
    + apply C.
    + intros x Hx. apply enqueue_In in Hx; [|apply C].
      destruct Hx as [Hx| ->]; [now apply (c_sym2 _ _ _ C) | simpl; eauto].
    + apply C.
    + intros E. congruence.
Qed.

Lemma Inv_StartGame (rnd : nat -> nat -> Rand) (w : World) :
  Inv w -> Inv (step rnd StartGame w).
Proof.
  intros (p1 & p2 & Hp & C). rewrite step_StartGame.
  destruct (gameStarted (gameState w)) eqn:Hs.
  - exists p1, p2. split; [exact Hp|].
    constructor; simpl; try (apply C); try discriminate; try reflexivity.
    + now left.
    + apply (Tracked_empty_board (placedEmojis p1 ++ placedEmojis p2)).
    + intros _. now apply C.
  - unfold initPlayers. simpl. rewrite Hp. simpl.
    rewrite (c_id1 _ _ _ C), (c_id2 _ _ _ C). simpl.
    eexists _, _. split; [reflexivity|].
    constructor; simpl; auto; try lia; try tauto; try discriminate.
    + apply (Tracked_empty_board []).
    + intros _.
      destruct (shuffle_category (rnd 1) (player1Category (gameState w))) as [A B].
      destruct (shuffle_category (rnd 2) (player2Category (gameState w))) as [A' B'].
      auto.
Qed.

Lemma Inv_ResetGame (rnd : nat -> nat -> Rand) (w : World) :
  Inv w -> Inv (step rnd ResetGame w).
Proof.
  intros _. rewrite step_ResetGame. unfold resetGame.
  eexists _, _. split; [reflexivity|].
  constructor; simpl; auto; try lia; try tauto; try discriminate.
  apply Tracked_empty_board.
Qed.

Lemma Inv_CategoryChange (rnd : nat -> nat -> Rand) (playerId : nat) (c : Category)
    (w : World) :
  Inv w -> gameStarted (gameState w) = false ->
  Inv (step rnd (CategoryChange playerId c) w).
Proof.
  intros (p1 & p2 & Hp & C) Hs. rewrite step_CategoryChange by assumption.
  destruct (c_idle _ _ _ C Hs) as [Q1 Q2].
  exists p1, p2. split; [exact Hp|].
  unfold handleCategoryChange.
  destruct (playerId =? 1); constructor; simpl; try (apply C);
    try (rewrite Q1; intros x []); try (rewrite Q2; intros x []);
    try congruence.
Qed.

Theorem reachable_Inv (w : World) : reachable w -> Inv w.
Proof.
  induction 1 as [|w a rnd Hw IH Ha].
  - apply Inv_initialWorld.
  - destruct a as [index r| | |playerId c].
    + rewrite step_CellClick. now apply Inv_handleCellClick.
    + now apply Inv_StartGame.
    + now apply Inv_ResetGame.
    + apply Inv_CategoryChange; [assumption|].
      simpl in Ha. apply andb_true_iff in Ha. destruct Ha as [Ha _].
      now apply negb_true_iff in Ha.
Qed.

(** ** No full board (C7) *)

Lemma Inv_occupied (w : World) :
  Inv w -> length (occupiedCells (board (gameState w))) <= 6.
Proof.
  intros (p1 & p2 & Hp & C).
  pose proof (Tracked_occupied_length _ _ (c_tracked _ _ _ C)) as H.
  rewrite length_app in H.
  pose proof (c_len1 _ _ _ C). pose proof (c_len2 _ _ _ C). lia.
Qed.

(** C7. In every state the component can reach, at most six cells of the
    board are occupied, so the board is never full; in particular there is
    no reachable state with a full board and no winner, and no draw. *)
Theorem full_board_unreachable (w : World) :
  reachable w ->
  length (occupiedCells (board (gameState w))) <= 6
  /\ boardFull (board (gameState w)) = false
  /\ (boardFull (board (gameState w)) = true -> winner (gameState w) <> None).
Proof.
  intros Hw. pose proof (Inv_occupied w (reachable_Inv w Hw)) as H.
  assert (F : boardFull (board (gameState w)) = false).
  { destruct (boardFull (board (gameState w))) eqn:E; [|reflexivity].
    apply boardFull_occupied in E. lia. }
  repeat split; auto. rewrite F. discriminate.
Qed.

(** ** At most three cells per player (C4) *)

Lemma Val_eqb_refl (v : Val) : Val_eqb v v = true.
Proof. destruct v; simpl; auto. apply String.eqb_refl. Qed.

Lemma cellsOf_length (q : list Placed) (b : list Val) :
  length (cellsOf q b) <= length q.
Proof.
  apply filter_NoDup_incl_length. intros i Hi H.
  apply andb_true_iff in H. destruct H as [_ H].
  apply existsb_exists in H. destruct H as (x & Hx & H).
  apply andb_true_iff in H. destruct H as [H _]. apply Nat.eqb_eq in H.
  rewrite <- H. now apply in_map.
Qed.

Lemma cellsOf_In (q : list Placed) (b : list Val) (x : Placed) :
  In x q -> position x < 9 -> emoji x = cell b (position x) ->
  cell b (position x) <> Null -> In (position x) (cellsOf q b).
Proof.
  intros Hx Hp He Hn. apply filter_In. split; [apply in_seq; lia|].
  apply andb_true_iff. split.
  - destruct (cell b (position x)); try reflexivity. congruence.
  - apply existsb_exists. exists x. split; [assumption|].
    rewrite Nat.eqb_refl, He. apply Val_eqb_refl.
Qed.

Lemma cellsInCategory_length (c : Category) (b : list Val) (q others : list Placed) :
  Tracked b (q ++ others) ->
  (forall x s, In x others -> emoji x = Str s -> ~ In s (emojiCategories c)) ->
  length (cellsInCategory c b) <= length q.
Proof.
  intros Ht Ho. apply filter_NoDup_incl_length. intros i Hi H.
  apply includes_In in H. destruct H as (s & Hc & Hs).
  destruct (Ht i Hi) as (x & Hx & Hp & He); [congruence|].
  apply in_app_or in Hx. destruct Hx as [Hx|Hx].
  - rewrite <- Hp. now apply in_map.
  - exfalso. apply (Ho x s Hx); congruence.
Qed.

Lemma Tracked_swap (b : list Val) (l1 l2 : list Placed) :
  Tracked b (l1 ++ l2) -> Tracked b (l2 ++ l1).
Proof.
  intros H i Hi Hc. destruct (H i Hi Hc) as (x & Hx & R).
  exists x. split; [|exact R]. apply in_or_app. apply in_app_or in Hx. tauto.
Qed.

(** C4. In every state the component can reach, the queue of each player
    holds at most three placements, and the cells of the board occupied by
    the placements of a player are at most as many as the records of the
    queue, hence at most three; every occupied cell is the placement of one
    of the players.  When the two categories differ, the cells that hold a
    symbol of the category of a player are at most three as well. *)
Theorem at_most_three_cells_per_player (w : World) :
  reachable w ->
  (forall p, In p (players w) ->
     length (placedEmojis p) <= 3
     /\ length (cellsOf (placedEmojis p) (board (gameState w))) <= length (placedEmojis p)
     /\ length (cellsOf (placedEmojis p) (board (gameState w))) <= 3)
  /\ (forall i, i < 9 -> cell (board (gameState w)) i <> Null ->
      exists p, In p (players w)
                /\ In i (cellsOf (placedEmojis p) (board (gameState w))))
  /\ (player1Category (gameState w) <> player2Category (gameState w) ->
      length (cellsInCategory (player1Category (gameState w)) (board (gameState w))) <= 3
      /\ length (cellsInCategory (player2Category (gameState w)) (board (gameState w))) <= 3).
Proof.
  intros Hw. destruct (reachable_Inv w Hw) as (p1 & p2 & Hp & C).
  pose proof (c_len1 _ _ _ C) as L1. pose proof (c_len2 _ _ _ C) as L2.
  rewrite Hp. split; [|split].
  - intros p [<-|[<-|[]]].
    + pose proof (cellsOf_length (placedEmojis p1) (board (gameState w))). lia.
    + pose proof (cellsOf_length (placedEmojis p2) (board (gameState w))). lia.
  - intros i Hi Hc. destruct (c_tracked _ _ _ C i Hi Hc) as (x & Hx & Hpos & He).
    subst i. apply in_app_or in Hx. destruct Hx as [Hx|Hx].
    + exists p1. split; [now left|]. now apply cellsOf_In.
    + exists p2. split; [right; now left|]. now apply cellsOf_In.
  - intros Hne. split.
    + etransitivity; [|exact L1].
      apply cellsInCategory_length with (others := placedEmojis p2);
        [apply (c_tracked _ _ _ C)|].
      intros x s Hx He Hin. destruct (c_sym2 _ _ _ C x Hx) as (t & Ht & Hin2).
      rewrite He in Ht. injection Ht as <-.
      apply Hne. eapply categories_disjoint; eassumption.
    + etransitivity; [|exact L2].
      apply cellsInCategory_length with (others := placedEmojis p1);
        [apply Tracked_swap, (c_tracked _ _ _ C)|].
      intros x s Hx He Hin. destruct (c_sym1 _ _ _ C x Hx) as (t & Ht & Hin1).
      rewrite He in Ht. injection Ht as <-.
      apply Hne. eapply categories_disjoint; eassumption.
Qed.

(** ** Scenarios *)

(** A scenario is settled by running the handlers. *)
Ltac evaluated := vm_compute; repeat split; try discriminate.

Lemma reachable_beforeWin : reachable beforeWin.
Proof. apply reachable_run; [apply reachable_init | vm_compute; reflexivity]. Qed.

Lemma reachable_afterPlayAgain : reachable afterPlayAgain.
Proof. apply reachable_run; [apply reachable_init | vm_compute; reflexivity]. Qed.

Lemma reachable_sameCategories : reachable sameCategories.
Proof. apply reachable_run; [apply reachable_init | vm_compute; reflexivity]. Qed.

Lemma reachable_sharedTopRow : reachable sharedTopRow.
Proof. apply reachable_run; [apply reachable_sameCategories | vm_compute; reflexivity]. Qed.

Lemma reachable_animalsGame : reachable animalsGame.
Proof. apply reachable_run; [apply reachable_init | vm_compute; reflexivity]. Qed.

(** C1 at a state the component reaches through "Play Again".  The button
    calls [startGame], which empties the board; the effect that empties the
    queues does not run, since the game was started already.  Player 1
    still has the three records of the last game, for cells 0, 1 and 2.
    The click on the empty cell 0 is accepted and queues a 4th placement;
    the oldest record is the one for cell 0, and the cell that was clicked
    is cleared: it does not hold the symbol that was drawn. *)
Theorem play_again_click_is_cleared :
  let w := afterPlayAgain in
  let w' := handleCellClick 0 zero w in
  reachable w
  /\ gameStarted (gameState w) = true
  /\ winner (gameState w) = None
  /\ currentPlayer (gameState w) = 1
  /\ board (gameState w) = repeat Null 9
  /\ map (fun p => map position (placedEmojis p)) (players w) = [[0; 1; 2]; [3; 4]]
  /\ getRandomEmoji (players w) zero 1 = Str "📱"
  /\ cell (board (gameState w')) 0 = Null
  /\ board (gameState w') = repeat Null 9
  /\ map (fun p => map position (placedEmojis p)) (players w') = [[1; 2; 0]; [3; 4]].
Proof.
  split; [exact reachable_afterPlayAgain|]. evaluated.
Qed.

(** After "Play Again" a stale record can also be for a cell the opponent
    has taken since: the click of player 1 on cell 6 clears cell 1, which
    holds a symbol of player 2. *)
Example play_again_click_clears_opponent :
  let w := run afterPlayAgain (clicks [5; 1]) in
  let w' := handleCellClick 6 zero w in
  currentPlayer (gameState w) = 1
  /\ cell (board (gameState w)) 1 = Str "🛸"
  /\ map (fun p => map position (placedEmojis p)) (players w) = [[1; 2; 5]; [3; 4; 1]]
  /\ cell (board (gameState w')) 1 = Null
  /\ cell (board (gameState w')) 6 = Str "📱".
Proof. evaluated. Qed.

(** C2 fails: with both players on the category [space], a state the setup
    card allows, [startGame] starts the game. *)
Lemma startGame_accepts_equal_categories :
  reachable sameCategories
  /\ player1Category (gameState sameCategories) = player2Category (gameState sameCategories)
  /\ gameStarted (gameState sameCategories) = false
  /\ gameStarted (gameState (startGame sameCategories)) = true.
Proof.
  split; [exact reachable_sameCategories|]. evaluated.
Qed.

(** C3 fails: the click of player 1 on cell 2 wins the game, and the
    current player afterwards is player 2. *)
Lemma winning_click_advances_turn :
  let w' := handleCellClick 2 zero beforeWin in
  reachable beforeWin
  /\ gameStarted (gameState beforeWin) = true
  /\ winner (gameState beforeWin) = None
  /\ cell (board (gameState beforeWin)) 2 = Null
  /\ currentPlayer (gameState beforeWin) = 1
  /\ winner (gameState w') = Some 1
  /\ winningLine (gameState w') = Some [0; 1; 2]
  /\ currentPlayer (gameState w') = 2
  /\ currentPlayer (gameState w') <> currentPlayer (gameState beforeWin).
Proof.
  split; [exact reachable_beforeWin|]. evaluated.
Qed.


(** C9 fails: after player 1 picked the animals, [resetGame] leaves the
    category of player 1 at animals; the default is tech. *)
Lemma resetGame_not_to_defaults :
  reachable animalsGame
  /\ player1Category (gameState (resetGame animalsGame)) = animals
  /\ player1Category initialGameState = tech
  /\ player1Category (gameState (resetGame animalsGame))
     <> player1Category initialGameState.
Proof.
  split; [exact reachable_animalsGame|]. evaluated.
Qed.

(** *** Instances *)

Lemma rejected_click_witness :
  cell (board (gameState beforeWin)) 0 <> Null
  /\ (handleCellClick 0 zero beforeWin = beforeWin
      /\ forall rnd, step rnd (CellClick 0 zero) beforeWin = beforeWin).
Proof.
  assert (H : cell (board (gameState beforeWin)) 0 <> Null)
    by (vm_compute; discriminate).
  split; [exact H|].
  apply (rejected_click_changes_nothing beforeWin 0 zero).
  right. right. right. exact H.
Defined.

Lemma accepted_click_witness :
  (gameStarted (gameState beforeWin) = true
   /\ winner (gameState beforeWin) = None
   /\ cell (board (gameState beforeWin)) 2 = Null)
  /\ (let gs' := gameState (handleCellClick 2 zero beforeWin) in
      currentPlayer gs' = (if currentPlayer (gameState beforeWin) =? 1 then 2 else 1)
      /\ currentPlayer gs' <> currentPlayer (gameState beforeWin)
      /\ (winner gs', winningLine gs') = checkWinner (gameState beforeWin) (board gs')
      /\ (winner gs' = None <-> winningLine gs' = None)).
Proof.
  split; [vm_compute; repeat split|].
  apply (accepted_click_switches_player beforeWin 2 zero); vm_compute; reflexivity.
Defined.

Lemma full_board_witness :
  reachable beforeWin
  /\ (length (occupiedCells (board (gameState beforeWin))) <= 6
      /\ boardFull (board (gameState beforeWin)) = false
      /\ (boardFull (board (gameState beforeWin)) = true ->
          winner (gameState beforeWin) <> None)).
Proof.
  split; [exact reachable_beforeWin|].
  apply (full_board_unreachable beforeWin). exact reachable_beforeWin.
Defined.

Lemma at_most_three_witness :
  reachable beforeWin
  /\ ((forall p, In p (players beforeWin) ->
        length (placedEmojis p) <= 3
        /\ length (cellsOf (placedEmojis p) (board (gameState beforeWin)))
           <= length (placedEmojis p)
        /\ length (cellsOf (placedEmojis p) (board (gameState beforeWin))) <= 3)
      /\ (forall i, i < 9 -> cell (board (gameState beforeWin)) i <> Null ->
          exists p, In p (players beforeWin)
                    /\ In i (cellsOf (placedEmojis p) (board (gameState beforeWin))))
      /\ (player1Category (gameState beforeWin)
          <> player2Category (gameState beforeWin) ->
          length (cellsInCategory (player1Category (gameState beforeWin))
                                  (board (gameState beforeWin))) <= 3
          /\ length (cellsInCategory (player2Category (gameState beforeWin))
                                     (board (gameState beforeWin))) <= 3)).
Proof.
  split; [exact reachable_beforeWin|].
  exact (at_most_three_cells_per_player beforeWin reachable_beforeWin).
Defined.

(** ** Games started from the setup card *)

Lemma OnBoard_swap (b : list Val) (l1 l2 : list Placed) :
  OnBoard b (l1 ++ l2) -> OnBoard b (l2 ++ l1).
Proof.
  intros [H N]. split.
  - intros x Hx. apply H. apply in_or_app. apply in_app_or in Hx. tauto.
  - eapply Permutation_NoDup; [|exact N].
    apply Permutation_map, Permutation_app_comm.
Qed.

Lemma OnBoard_not_clicked (b : list Val) (l : list Placed) (index : nat) :
  OnBoard b l -> cell b index = Null -> ~ In index (map position l).
Proof.
  intros [H _] Hc Hin. apply in_map_iff in Hin. destruct Hin as (x & <- & Hx).
  destruct (H x Hx) as [E N]. congruence.
Qed.

Lemma enqueue_OnBoard (q others : list Placed) (index : nat) (e : Val) (b : list Val) :
  length q <= 3 -> cell b index = Null -> e <> Null ->
  OnBoard b (q ++ others) ->
  OnBoard (snd (enqueue q index e (setCell b index e)))
          (fst (enqueue q index e (setCell b index e)) ++ others).
Proof.
  intros Hq Hc He Hb.
  pose proof (OnBoard_not_clicked _ _ _ Hb Hc) as Hfree.
  destruct Hb as [H N].
  assert (Hidx : forall x, In x (q ++ others) -> position x <> index).
  { intros x Hx E. apply Hfree. rewrite <- E. now apply in_map. }
  destruct (enqueue_cases q index e (setCell b index e) Hq)
    as [[Hlen E]|(o & rest & -> & Hlen & E)]; rewrite E; simpl.
  - split.
    + intros x Hx. rewrite cell_setCell.
      rewrite <- app_assoc in Hx. apply in_app_or in Hx.
      destruct Hx as [Hx|[<-|Hx]].
      * assert (Hx' : In x (q ++ others)) by (apply in_or_app; now left).
        destruct (position x =? index) eqn:Ei;
          [apply Nat.eqb_eq in Ei; now apply Hidx in Hx'|]. now apply H.
      * simpl. now rewrite Nat.eqb_refl.
      * assert (Hx' : In x (q ++ others)) by (apply in_or_app; now right).
        destruct (position x =? index) eqn:Ei;
          [apply Nat.eqb_eq in Ei; now apply Hidx in Hx'|]. now apply H.
    + eapply Permutation_NoDup with (l := map position ({| position := index; emoji := e |} :: q ++ others)).
      * apply Permutation_map. rewrite <- app_assoc. apply Permutation_middle.
      * simpl. constructor; assumption.
  - simpl in N. inversion N as [|p l Ho N' Heq]; subst.
    assert (Hoi : position o <> index) by (apply Hidx; now left).
    assert (Hfree' : ~ In index (map position (rest ++ others)))
      by (intros Hin; apply Hfree; now right).
    split.
    + intros x Hx. rewrite !cell_setCell.
      rewrite <- app_assoc in Hx. apply in_app_or in Hx.
      assert (Hold : In x (rest ++ others) ->
                     (if position x =? position o then Null
                      else if position x =? index then e else cell b (position x))
                     = emoji x /\ emoji x <> Null).
      { intros Hx'.
        destruct (position x =? position o) eqn:Eo.
        - apply Nat.eqb_eq in Eo. exfalso. apply Ho. rewrite <- Eo. now apply in_map.
        - destruct (position x =? index) eqn:Ei.
          + apply Nat.eqb_eq in Ei. exfalso. apply Hfree'. rewrite <- Ei. now apply in_map.
          + apply H. now right. }
      destruct Hx as [Hx|[<-|Hx]].
      * apply Hold. apply in_or_app. now left.
      * simpl. apply Nat.eqb_neq in Hoi. rewrite Nat.eqb_sym in Hoi.
        now rewrite Hoi, Nat.eqb_refl.
      * apply Hold. apply in_or_app. now right.
    + eapply Permutation_NoDup with (l := map position ({| position := index; emoji := e |} :: rest ++ others)).
      * apply Permutation_map. rewrite <- app_assoc. apply Permutation_middle.
      * simpl. constructor; assumption.
Qed.

Lemma OnBoard_nil (b : list Val) : OnBoard b [].
Proof. split; [intros x [] | constructor]. Qed.

Lemma Exact_handleCellClick (index : nat) (r : Rand) (w : World) :
  Exact w -> Exact (handleCellClick index r w).
Proof.
  intros (p1 & p2 & Hp & C & B).
  destruct (Inv_handleCellClick index r w) as (p1' & p2' & Hp' & C');
    [exists p1, p2; auto|].
  exists p1', p2'. split; [exact Hp'|]. split; [exact C'|].
  revert Hp' C'. unfold handleCellClick.
  destruct (ignored (gameState w) index) eqn:G.
  { intros Hp' _. rewrite Hp in Hp'. injection Hp' as <- <-. exact B. }
  destruct (ignored_false _ _ G) as (Hs & Hc & Hw & Hi).
  rewrite Hp. destruct (c_turn _ _ _ C) as [T|T]; rewrite T.
  - rewrite (updatePlayers_first _ _ _ _ _ (c_id1 _ _ _ C) (c_id2 _ _ _ C)).
    destruct (drawn_first _ _ _ r C Hs) as (s & He & Hin). rewrite He.
    simpl. intros Hp' _. injection Hp' as <- <-. simpl.
    apply enqueue_OnBoard; [apply C | exact Hc | discriminate | exact B].
  - rewrite (updatePlayers_second _ _ _ _ _ (c_id1 _ _ _ C) (c_id2 _ _ _ C)).
    destruct (drawn_second _ _ _ r C Hs) as (s & He & Hin). rewrite He.
    simpl. intros Hp' _. injection Hp' as <- <-. simpl.
    apply OnBoard_swap.
    apply enqueue_OnBoard; [apply C | exact Hc | discriminate | now apply OnBoard_swap].
Qed.

Theorem fresh_Exact (w : World) : fresh w -> Exact w.
Proof.
  induction 1 as [|w a rnd Hw IH Ha Hr].
  - destruct Inv_initialWorld as (p1 & p2 & Hp & C).
    exists p1, p2. split; [exact Hp|]. split; [exact C|].
    destruct (c_idle _ _ _ C eq_refl) as [-> ->]. apply OnBoard_nil.
  - destruct IH as (p1 & p2 & Hp & C & B).
    assert (I : Inv w) by (exists p1, p2; auto).
    destruct a as [index r| | |playerId c].
    + rewrite step_CellClick. apply Exact_handleCellClick. exists p1, p2; auto.
    + simpl in Hr. destruct (Inv_StartGame rnd w I) as (q1 & q2 & Hq & C').
      exists q1, q2. split; [exact Hq|]. split; [exact C'|].
      rewrite step_StartGame, Hr in Hq. unfold initPlayers in Hq. simpl in Hq.
      rewrite Hp in Hq. simpl in Hq. injection Hq as <- <-. simpl. apply OnBoard_nil.
    + destruct (Inv_ResetGame rnd w I) as (q1 & q2 & Hq & C').
      exists q1, q2. split; [exact Hq|]. split; [exact C'|].
      destruct (c_idle _ _ _ C') as [-> ->]; [|apply OnBoard_nil].
      now rewrite step_ResetGame.
    + assert (Hs : gameStarted (gameState w) = false).
      { simpl in Ha. apply andb_true_iff in Ha. destruct Ha as [Ha _].
        now apply negb_true_iff in Ha. }
      destruct (Inv_CategoryChange rnd playerId c w I Hs) as (q1 & q2 & Hq & C').
      exists q1, q2. split; [exact Hq|]. split; [exact C'|].
      destruct (c_idle _ _ _ C') as [-> ->]; [|apply OnBoard_nil].
      rewrite step_CategoryChange by assumption. simpl.
      now destruct (playerId =? 1).
Qed.

Lemma fresh_current (w : World) (p1 p2 cur : Player) :
  players w = [p1; p2] -> Consistent (gameState w) p1 p2 ->
  In cur (players w) -> id cur = currentPlayer (gameState w) ->
  (currentPlayer (gameState w) = 1 /\ cur = p1)
  \/ (currentPlayer (gameState w) = 2 /\ cur = p2).
Proof.
  intros Hp C Hin Hid. rewrite Hp in Hin.
  pose proof (c_id1 _ _ _ C). pose proof (c_id2 _ _ _ C).
  destruct Hin as [<-|[<-|[]]]; [left | right]; split; auto; congruence.
Qed.

(** X1.  The frame of the vanishing rule in a game started from the setup
    card.  When the current player has three placements queued and clicks
    an empty cell, the cell of the oldest placement held that placement and
    becomes empty, the clicked cell (another cell) holds the symbol drawn,
    every other cell and every other player are unchanged, and the queue of
    the current player drops the oldest record and gains the new one. *)
Theorem fourth_placement_from_setup (w : World) (index : nat) (r : Rand)
    (cur : Player) (o : Placed) (rest : list Placed) :
  fresh w ->
  ignored (gameState w) index = false ->
  In cur (players w) -> id cur = currentPlayer (gameState w) ->
  placedEmojis cur = o :: rest -> length rest = 2 ->
  let e := getRandomEmoji (players w) r (currentPlayer (gameState w)) in
  let w' := handleCellClick index r w in
  position o <> index
  /\ cell (board (gameState w)) (position o) = emoji o
  /\ cell (board (gameState w')) (position o) = Null
  /\ cell (board (gameState w')) index = e
  /\ (exists s, e = Str s)
  /\ (forall j, j <> index -> j <> position o ->
      cell (board (gameState w')) j = cell (board (gameState w)) j)
  /\ (forall p, In p (players w) -> id p <> currentPlayer (gameState w) ->
      In p (players w'))
  /\ In (withPlaced cur (rest ++ [ {| position := index; emoji := e |} ])) (players w').
Proof.
  intros Hf G Hin Hid Hq Hlen.
  destruct (fresh_Exact w Hf) as (p1 & p2 & Hp & C & B).
  destruct (ignored_false _ _ G) as (Hs & Hc & Hw & Hi).
  pose proof (OnBoard_not_clicked _ _ _ B Hc) as Hfree.
  assert (Ho : In o (placedEmojis p1 ++ placedEmojis p2)).
  { destruct (fresh_current w p1 p2 cur Hp C Hin Hid) as [[_ ->]|[_ ->]];
      apply in_or_app; [left | right]; rewrite Hq; now left. }
  assert (Hoi : position o <> index).
  { intros E. apply Hfree. rewrite <- E. now apply in_map. }
  assert (Hon : cell (board (gameState w)) (position o) = emoji o)
    by (apply (proj1 B); exact Ho).
  assert (Hcells : forall e j,
            cell (setCell (setCell (board (gameState w)) index e) (position o) Null) j
            = if j =? position o then Null
              else if j =? index then e else cell (board (gameState w)) j)
    by (intros e j; now rewrite !cell_setCell).
  assert (Henq : forall e b,
            enqueue (o :: rest) index e b
            = (rest ++ [ {| position := index; emoji := e |} ], setCell b (position o) Null)).
  { intros e b. unfold enqueue. simpl. rewrite length_app, Hlen. reflexivity. }
  simpl. unfold handleCellClick. rewrite G, Hp.
  destruct (fresh_current w p1 p2 cur Hp C Hin Hid) as [[T ->]|[T ->]]; rewrite T.
  - rewrite (updatePlayers_first _ _ _ _ _ (c_id1 _ _ _ C) (c_id2 _ _ _ C)).
    rewrite Hq, Henq. simpl.
    destruct (drawn_first _ _ _ r C Hs) as (s & He & _).
    split; [exact Hoi|]. split; [exact Hon|].
    split; [rewrite Hcells; now rewrite Nat.eqb_refl|].
    split.
    { rewrite Hcells.
      replace (index =? position o) with false
        by (symmetry; apply Nat.eqb_neq; congruence).
      now rewrite Nat.eqb_refl. }
    split; [eauto|]. split; [|split].
    + intros j Hj1 Hj2. rewrite Hcells.
      apply Nat.eqb_neq in Hj1, Hj2. now rewrite Hj1, Hj2.
    + intros p [<-|[<-|[]]] Hne; [|right; now left].
      rewrite (c_id1 _ _ _ C) in Hne. congruence.
    + now left.
  - rewrite (updatePlayers_second _ _ _ _ _ (c_id1 _ _ _ C) (c_id2 _ _ _ C)).
    rewrite Hq, Henq. simpl.
    destruct (drawn_second _ _ _ r C Hs) as (s & He & _).
    split; [exact Hoi|]. split; [exact Hon|].
    split; [rewrite Hcells; now rewrite Nat.eqb_refl|].
    split.
    { rewrite Hcells.
      replace (index =? position o) with false
        by (symmetry; apply Nat.eqb_neq; congruence).
      now rewrite Nat.eqb_refl. }
    split; [eauto|]. split; [|split].
    + intros j Hj1 Hj2. rewrite Hcells.
      apply Nat.eqb_neq in Hj1, Hj2. now rewrite Hj1, Hj2.
    + intros p [<-|[<-|[]]] Hne; [now left|].
      rewrite (c_id2 _ _ _ C) in Hne. congruence.
    + right; now left.
Qed.

(** X2.  In a game started from the setup card the cells a player occupies are
    exactly the records of the queue of the player. *)
Theorem fresh_cells_are_queue (w : World) (p : Player) :
  fresh w -> In p (players w) ->
  length (cellsOf (placedEmojis p) (board (gameState w))) = length (placedEmojis p).
Proof.
  intros Hf Hin. destruct (fresh_Exact w Hf) as (p1 & p2 & Hp & C & [B N]).
  apply Nat.le_antisymm; [apply cellsOf_length|].
  rewrite <- (length_map position (placedEmojis p)).
  rewrite map_app in N. rewrite Hp in Hin.
  apply NoDup_incl_length.
  - destruct Hin as [<-|[<-|[]]].
    + eapply NoDup_app_remove_r; exact N.
    + eapply NoDup_app_remove_l; exact N.
  - intros i Hi. apply in_map_iff in Hi. destruct Hi as (x & <- & Hx).
    assert (Hx' : In x (placedEmojis p1 ++ placedEmojis p2))
      by (apply in_or_app; destruct Hin as [<-|[<-|[]]]; auto).
    destruct (B x Hx') as [E Hn].
    apply cellsOf_In; auto.
    + now apply (c_pos _ _ _ C).
    + congruence.
Qed.

Lemma fresh_run (w : World) (l : list (Action * (nat -> nat -> Rand))) :
  fresh w -> allFresh w l = true -> fresh (run w l).
Proof.
  revert w. induction l as [|[a rnd] rest IH]; intros w Hw Hl; simpl in *.
  - exact Hw.
  - apply andb_true_iff in Hl. destruct Hl as [Ha Hrest].
    apply andb_true_iff in Ha. destruct Ha as [Ha Hr].
    apply negb_true_iff in Hr.
    apply IH; [|exact Hrest]. now apply fresh_step.
Qed.

Lemma fresh_sixMoves : fresh sixMoves.
Proof. apply fresh_run; [apply fresh_init | vm_compute; reflexivity]. Qed.

(** The 7th move of [sixMoves], player 1 on cell 2: the record for cell 0
    goes, and no line is made. *)
Lemma fourth_placement_witness :
  let w := sixMoves in
  let cur := hd {| id := 0; category := tech; emojis := []; placedEmojis := [] |}
                (players w) in
  let o := {| position := 0; emoji := Str "📱" |} in
  let rest := tl (placedEmojis cur) in
  (fresh w /\ ignored (gameState w) 2 = false /\ In cur (players w)
   /\ id cur = currentPlayer (gameState w)
   /\ placedEmojis cur = o :: rest /\ length rest = 2)
  /\ (let e := getRandomEmoji (players w) zero (currentPlayer (gameState w)) in
      let w' := handleCellClick 2 zero w in
      position o <> 2
      /\ cell (board (gameState w)) (position o) = emoji o
      /\ cell (board (gameState w')) (position o) = Null
      /\ cell (board (gameState w')) 2 = e
      /\ (exists s, e = Str s)
      /\ (forall j, j <> 2 -> j <> position o ->
          cell (board (gameState w')) j = cell (board (gameState w)) j)
      /\ (forall p, In p (players w) -> id p <> currentPlayer (gameState w) ->
          In p (players w'))
      /\ In (withPlaced cur (rest ++ [ {| position := 2; emoji := e |} ])) (players w')).
Proof.
  assert (H2 : ignored (gameState sixMoves) 2 = false) by (vm_compute; reflexivity).
  assert (H3 : In (hd {| id := 0; category := tech; emojis := []; placedEmojis := [] |}
                      (players sixMoves)) (players sixMoves))
    by (vm_compute; left; reflexivity).
  assert (H4 : id (hd {| id := 0; category := tech; emojis := []; placedEmojis := [] |}
                      (players sixMoves)) = currentPlayer (gameState sixMoves))
    by (vm_compute; reflexivity).
  assert (H5 : placedEmojis (hd {| id := 0; category := tech; emojis := []; placedEmojis := [] |}
                                (players sixMoves))
               = {| position := 0; emoji := Str "📱" |}
                 :: tl (placedEmojis (hd {| id := 0; category := tech; emojis := []; placedEmojis := [] |}
                                         (players sixMoves))))
    by (vm_compute; reflexivity).
  assert (H6 : length (tl (placedEmojis (hd {| id := 0; category := tech; emojis := []; placedEmojis := [] |}
                                            (players sixMoves)))) = 2)
    by (vm_compute; reflexivity).
  split; [exact (conj fresh_sixMoves (conj H2 (conj H3 (conj H4 (conj H5 H6)))))|].
  exact (fourth_placement_from_setup sixMoves 2 zero _ _ _ fresh_sixMoves H2 H3 H4 H5 H6).
Defined.

Lemma fresh_cells_witness :
  let p := hd {| id := 0; category := tech; emojis := []; placedEmojis := [] |}
              (players sixMoves) in
  (fresh sixMoves /\ In p (players sixMoves))
  /\ length (cellsOf (placedEmojis p) (board (gameState sixMoves)))
     = length (placedEmojis p).
Proof.
  assert (H : In (hd {| id := 0; category := tech; emojis := []; placedEmojis := [] |}
                     (players sixMoves)) (players sixMoves))
    by (vm_compute; left; reflexivity).
  split; [split; [exact fresh_sixMoves | exact H]|].
  exact (fresh_cells_are_queue sixMoves _ fresh_sixMoves H).
Defined.

(** * Further properties of the component *)

(** ** The shuffle is a permutation *)

Lemma setNth_nth_error (l : list string) (i j : nat) (x y : string) :
  nth_error l i = Some x ->
  nth_error (setNth l i y) j = if j =? i then Some y else nth_error l j.
Proof.
  revert i j. induction l as [|z l IH]; intros [|i] [|j] H; simpl in *;
    try discriminate; try reflexivity.
  now apply IH.
Qed.

Lemma setNth_count_occ (l : list string) (i : nat) (x y z : string) :
  nth_error l i = Some x ->
  count_occ string_dec (setNth l i y) z + (if string_dec x z then 1 else 0)
  = count_occ string_dec l z + (if string_dec y z then 1 else 0).
Proof.
  revert i. induction l as [|a l IH]; intros [|i] H; simpl in *; try discriminate.
  - injection H as ->. destruct (string_dec x z), (string_dec y z); lia.
  - specialize (IH i H). destruct (string_dec a z); lia.
Qed.

Lemma swap_Permutation (l : list string) (i j : nat) : Permutation (swap l i j) l.
Proof.
  unfold swap.
  destruct (nth_error l i) as [x|] eqn:Ei; [|reflexivity].
  destruct (nth_error l j) as [y|] eqn:Ej; [|reflexivity].
  apply (Permutation_count_occ string_dec). intros z.
  pose proof (setNth_count_occ l i x y z Ei) as H1.
  assert (Ej' : nth_error (setNth l i y) j = Some y).
  { rewrite (setNth_nth_error l i j x y Ei). now destruct (j =? i). }
  pose proof (setNth_count_occ (setNth l i y) j y x z Ej') as H2.
  lia.
Qed.

Lemma shuffleFrom_Permutation (rnd : nat -> Rand) (i : nat) (l : list string) :
  Permutation (shuffleFrom rnd i l) l.
Proof.
  revert l. induction i as [|i IH]; intros l; simpl; [reflexivity|].
  etransitivity; [apply IH | apply swap_Permutation].
Qed.

(** The swaps of the shuffle stay inside the list: in the iteration for
    [i] the other index is at most [i]. *)
Lemma shuffle_index_le (r : Rand) (i : nat) : floorTimes r (i + 1) <= i.
Proof. pose proof (floorTimes_lt r (i + 1)). lia. Qed.

(** X3.  Whatever the random source yields, the shuffle of the effect returns a
    rearrangement of its input: every symbol as often as before, none lost
    and none added. *)
Theorem shuffle_Permutation (rnd : nat -> Rand) (l : list string) :
  Permutation (shuffle rnd l) l.
Proof. apply shuffleFrom_Permutation. Qed.

(** ** What a player can draw *)

(** [updatePlayers] changes the queues only: every player it returns has
    the id, the category and the emoji list of a player it was given. *)
Lemma updatePlayers_static (currentPlayerId index : nat) (e : Val)
    (ps : list Player) (b : list Val) (p' : Player) :
  In p' (fst (updatePlayers currentPlayerId index e ps b)) ->
  exists p, In p ps /\ id p' = id p /\ category p' = category p
            /\ emojis p' = emojis p.
Proof.
  revert b. induction ps as [|q ps IH]; intros b; simpl; [intros []|].
  destruct (id q =? currentPlayerId).
  - destruct (3 <? length (placedEmojis q ++ [ {| position := index; emoji := e |} ])).
    + destruct (updatePlayers currentPlayerId index e ps _) as [rest' b'] eqn:E.
      simpl. intros [<-|H].
      * exists q. simpl. auto.
      * specialize (IH (setCell b
                          match placedEmojis q ++ [ {| position := index; emoji := e |} ] with
                          | [] => 0
                          | oldest :: _ => position oldest
                          end Null)).
        rewrite E in IH. destruct (IH H) as (p & Hp & R). exists p. auto.
    + destruct (updatePlayers currentPlayerId index e ps b) as [rest' b'] eqn:E.
      simpl. intros [<-|H].
      * exists q. simpl. auto.
      * specialize (IH b). rewrite E in IH.
        destruct (IH H) as (p & Hp & R). exists p. auto.
  - destruct (updatePlayers currentPlayerId index e ps b) as [rest' b'] eqn:E.
    simpl. intros [<-|H].
    + exists q. auto.
    + specialize (IH b). rewrite E in IH.
      destruct (IH H) as (p & Hp & R). exists p. auto.
Qed.

Lemma Dealt_handleCellClick (index : nat) (r : Rand) (w : World) :
  Dealt w -> Dealt (handleCellClick index r w).
Proof.
  intros D. unfold handleCellClick.
  destruct (ignored (gameState w) index) eqn:G; [exact D|].
  destruct (updatePlayers _ _ _ _ _) as [ups nb] eqn:E.
  intros Hs p' Hp'. simpl in *.
  pose proof (updatePlayers_static (currentPlayer (gameState w)) index
                (getRandomEmoji (players w) r (currentPlayer (gameState w)))
                (players w)
                (setCell (board (gameState w)) index
                   (getRandomEmoji (players w) r (currentPlayer (gameState w)))) p') as S.
  rewrite E in S. destruct (S Hp') as (p & Hp & Hid & Hcat & Hem).
  destruct (D Hs p Hp) as [P C].
  unfold boundCategory in *. simpl. rewrite Hid, Hcat, Hem. auto.
Qed.

Theorem reachable_Dealt (w : World) : reachable w -> Dealt w.
Proof.
  induction 1 as [|w a rnd Hw IH Ha].
  - intros Hs. discriminate Hs.
  - destruct a as [index r| | |playerId c].
    + rewrite step_CellClick. now apply Dealt_handleCellClick.
    + rewrite step_StartGame. destruct (gameStarted (gameState w)) eqn:Hs.
      * intros _ p Hp. exact (IH Hs p Hp).
      * unfold initPlayers. simpl. intros _ p Hp. simpl in Hp.
        apply in_map_iff in Hp. destruct Hp as (q & <- & Hq). simpl.
        unfold boundCategory. simpl. split; [apply shuffleFrom_Permutation | reflexivity].
    + rewrite step_ResetGame. intros Hs. discriminate Hs.
    + assert (Hs : gameStarted (gameState w) = false).
      { simpl in Ha. apply andb_true_iff in Ha. destruct Ha as [Ha _].
        now apply negb_true_iff in Ha. }
      rewrite step_CategoryChange by assumption.
      intros Hs'. simpl in Hs'. destruct (playerId =? 1); simpl in Hs'; congruence.
Qed.

Lemma floorTimes_pick (k n : nat) : k < n -> floorTimes (pick k n) n = k.
Proof.
  intros H. unfold floorTimes, pick. simpl.
  replace (k + (n - k - 1) + 1) with n by lia.
  apply Nat.div_mul. lia.
Qed.

Lemma getRandomEmoji_found (ps : list Player) (player : Player) (playerId k : nat)
    (s : string) :
  find (fun p => id p =? playerId) ps = Some player ->
  nth_error (emojis player) k = Some s ->
  getRandomEmoji ps (pick k (length (emojis player))) playerId = Str s.
Proof.
  intros Hf Hn. unfold getRandomEmoji. rewrite Hf.
  assert (Hk : k < length (emojis player))
    by (apply nth_error_Some; congruence).
  destruct (length (emojis player) =? 0) eqn:E; [apply Nat.eqb_eq in E; lia|].
  now rewrite floorTimes_pick, Hn.
Qed.

(** X4.  In a started game the symbols a player can draw are exactly the
    symbols of the category bound to the player: every draw yields one of
    them (never the placeholder, never [undefined]), and each of them is
    the result of some draw. *)
Theorem draws_are_the_category (w : World) (playerId : nat) :
  reachable w ->
  gameStarted (gameState w) = true ->
  playerId = 1 \/ playerId = 2 ->
  (forall r, exists s,
      getRandomEmoji (players w) r playerId = Str s
      /\ In s (emojiCategories (boundCategory (gameState w) playerId)))
  /\ (forall s, In s (emojiCategories (boundCategory (gameState w) playerId)) ->
      exists r, getRandomEmoji (players w) r playerId = Str s).
Proof.
  intros Hw Hs Hid.
  destruct (reachable_Inv w Hw) as (p1 & p2 & Hp & C).
  pose proof (reachable_Dealt w Hw Hs) as D.
  pose proof (c_id1 _ _ _ C) as I1. pose proof (c_id2 _ _ _ C) as I2.
  assert (F : exists player,
             find (fun p => id p =? playerId) (players w) = Some player
             /\ In player (players w) /\ id player = playerId).
  { rewrite Hp. simpl. destruct Hid as [-> | ->].
    - exists p1. rewrite I1. simpl. auto.
    - exists p2. rewrite I1, I2. simpl. auto. }
  destruct F as (player & Hf & Hin & Hpid).
  destruct (D player Hin) as [P _]. rewrite Hpid in P.
  split.
  - intros r. pose proof (getRandomEmoji_cases (players w) r playerId) as G.
    rewrite Hf in G. destruct G as [_ G].
    destruct G as (s & E & Hs').
    + intros E. rewrite E in P. apply Permutation_nil in P.
      destruct playerId as [|[|[|n]]]; destruct Hid as [Hx|Hx]; try discriminate Hx;
        unfold boundCategory in P; simpl in P;
        [destruct (player1Category (gameState w)) | destruct (player2Category (gameState w))];
        discriminate P.
    + exists s. split; [exact E|]. eapply Permutation_in; eassumption.
  - intros s Hs'.
    assert (Hin' : In s (emojis player))
      by (eapply Permutation_in; [apply Permutation_sym; exact P | exact Hs']).
    apply In_nth_error in Hin'. destruct Hin' as (k & Hk).
    exists (pick k (length (emojis player))).
    eapply getRandomEmoji_found; eassumption.
Qed.

Lemma draws_witness :
  (reachable beforeWin /\ gameStarted (gameState beforeWin) = true /\ (1 = 1 \/ 1 = 2))
  /\ ((forall r, exists s,
         getRandomEmoji (players beforeWin) r 1 = Str s
         /\ In s (emojiCategories (boundCategory (gameState beforeWin) 1)))
      /\ (forall s, In s (emojiCategories (boundCategory (gameState beforeWin) 1)) ->
          exists r, getRandomEmoji (players beforeWin) r 1 = Str s)).
Proof.
  assert (Hs : gameStarted (gameState beforeWin) = true) by (vm_compute; reflexivity).
  split; [exact (conj reachable_beforeWin (conj Hs (or_introl eq_refl)))|].
  exact (draws_are_the_category beforeWin 1 reachable_beforeWin Hs (or_introl eq_refl)).
Defined.

(** ** The winner in the state *)

Lemma checkWinner_empty (gs : GameState) : checkWinner gs (repeat Null 9) = (None, None).
Proof. reflexivity. Qed.

Lemma comboWinner_categories (g1 g2 : GameState) (b : list Val) (combo : list nat) :
  player1Category g1 = player1Category g2 ->
  player2Category g1 = player2Category g2 ->
  comboWinner g1 b combo = comboWinner g2 b combo.
Proof. intros H1 H2. unfold comboWinner. now rewrite H1, H2. Qed.

Lemma checkWinner_categories (g1 g2 : GameState) (b : list Val) :
  player1Category g1 = player1Category g2 ->
  player2Category g1 = player2Category g2 ->
  checkWinner g1 b = checkWinner g2 b.
Proof.
  intros H1 H2. unfold checkWinner.
  induction winningCombinations as [|combo rest IH]; simpl; [reflexivity|].
  rewrite (comboWinner_categories g1 g2 b combo H1 H2), IH. reflexivity.
Qed.

Lemma Settled_handleCellClick (index : nat) (r : Rand) (w : World) :
  Settled w -> Settled (handleCellClick index r w).
Proof.
  intros S. unfold handleCellClick.
  destruct (ignored (gameState w) index) eqn:G; [exact S|].
  destruct (ignored_false _ _ G) as (Hs & _).
  destruct (updatePlayers _ _ _ _ _) as [ups nb]. split; simpl.
  - rewrite <- surjective_pairing. now apply checkWinner_categories.
  - congruence.
Qed.

Theorem reachable_Settled (w : World) : reachable w -> Settled w.
Proof.
  induction 1 as [|w a rnd Hw IH Ha].
  - split; reflexivity.
  - destruct a as [index r| | |playerId c].
    + rewrite step_CellClick. now apply Settled_handleCellClick.
    + rewrite step_StartGame. unfold initPlayers.
      destruct (gameStarted (gameState w)); simpl; split; simpl;
        try reflexivity; discriminate.
    + rewrite step_ResetGame. split; reflexivity.
    + assert (Hs : gameStarted (gameState w) = false).
      { simpl in Ha. apply andb_true_iff in Ha. destruct Ha as [Ha _].
        now apply negb_true_iff in Ha. }
      rewrite step_CategoryChange by assumption.
      destruct IH as [E B]. specialize (B Hs).
      rewrite B, checkWinner_empty in E.
      unfold handleCategoryChange.
      destruct (playerId =? 1); split; simpl; try (intros _; exact B);
        rewrite B, checkWinner_empty; exact E.
Qed.

(** The members of [winningCombinations]: three different cells of the
    board. *)
Lemma winning_line_shape (line : list nat) :
  In line winningCombinations ->
  exists x y z, line = [x; y; z] /\ NoDup [x; y; z] /\ x < 9 /\ y < 9 /\ z < 9.
Proof.
  intros H. simpl in H.
  repeat (destruct H as [<-|H];
          [eexists _, _, _; split; [reflexivity|]; split;
           [repeat constructor; simpl; lia | lia]|]).
  destruct H.
Qed.

Lemma comboWinner_Some (gs : GameState) (b : list Val) (x y z p : nat) :
  comboWinner gs b [x; y; z] = Some p ->
  (p = 1 \/ p = 2) /\ lineOf (boundCategory gs p) b x y z.
Proof.
  rewrite comboWinner_cases.
  destruct (includes (emojiCategories (player1Category gs)) (cell b x)
            && includes (emojiCategories (player1Category gs)) (cell b y)
            && includes (emojiCategories (player1Category gs)) (cell b z)) eqn:E1.
  - intros H. injection H as <-. split; [now left|]. now apply lineOf_includes.
  - destruct (includes (emojiCategories (player2Category gs)) (cell b x)
              && includes (emojiCategories (player2Category gs)) (cell b y)
              && includes (emojiCategories (player2Category gs)) (cell b z)) eqn:E2;
      [|discriminate].
    intros H. injection H as <-. split; [now right|]. now apply lineOf_includes.
Qed.

Lemma lineOf_wins (gs : GameState) (b : list Val) (x y z p : nat) :
  p = 1 \/ p = 2 -> lineOf (boundCategory gs p) b x y z ->
  comboWinner gs b [x; y; z] <> None.
Proof.
  intros Hp L. rewrite comboWinner_cases.
  destruct Hp as [-> | ->]; unfold boundCategory in L; simpl in L;
    apply lineOf_includes in L.
  - rewrite L. discriminate.
  - rewrite L.
    destruct (includes (emojiCategories (player1Category gs)) (cell b x)
              && includes (emojiCategories (player1Category gs)) (cell b y)
              && includes (emojiCategories (player1Category gs)) (cell b z));
      discriminate.
Qed.

(** What a winner in the result of [checkWinner] stands for. *)
Lemma checkWinner_Some (gs : GameState) (b : list Val) (p : nat) (wl : option (list nat)) :
  checkWinner gs b = (Some p, wl) ->
  exists x y z,
    wl = Some [x; y; z] /\ In [x; y; z] winningCombinations
    /\ NoDup [x; y; z] /\ x < 9 /\ y < 9 /\ z < 9
    /\ (p = 1 \/ p = 2) /\ lineOf (boundCategory gs p) b x y z.
Proof.
  intros H. unfold checkWinner in *.
  destruct (checkWinnerIn_shape gs b winningCombinations)
    as [E|(q & line & E & Hin)]; rewrite E in H; [discriminate|].
  injection H as <- <-.
  apply checkWinnerIn_first in E. destruct E as (before & after & _ & Hc & _).
  destruct (winning_line_shape line Hin) as (x & y & z & -> & N & B).
  destruct (comboWinner_Some _ _ _ _ _ _ Hc) as [Hp L].
  exists x, y, z. repeat split; auto; apply B.
Qed.

(** X5.  The winner and the winning line stored in the state are never stale:
    in every state the component can reach they are what [checkWinner]
    finds on the board of that state.  So a winner is set exactly when the
    board holds a complete line, the winner is player 1 or 2, and the line
    is one of the eight triples, with three symbols of the category of the
    winner in its cells. *)
Theorem stored_winner_is_checkWinner (w : World) :
  reachable w ->
  (winner (gameState w), winningLine (gameState w))
    = checkWinner (gameState w) (board (gameState w))
  /\ (winner (gameState w) = None <-> winningLine (gameState w) = None)
  /\ (forall p, winner (gameState w) = Some p ->
      (p = 1 \/ p = 2)
      /\ exists x y z,
           winningLine (gameState w) = Some [x; y; z]
           /\ In [x; y; z] winningCombinations
           /\ lineOf (boundCategory (gameState w) p) (board (gameState w)) x y z).
Proof.
  intros Hw. destruct (reachable_Settled w Hw) as [E _].
  split; [exact E|]. split.
  - unfold checkWinner in E.
    destruct (checkWinnerIn_shape (gameState w) (board (gameState w)) winningCombinations)
      as [H|(p & line & H & _)]; rewrite H in E; injection E as -> ->.
    + tauto.
    + split; discriminate.
  - intros p Hp. rewrite Hp in E. symmetry in E.
    destruct (checkWinner_Some _ _ _ _ E) as (x & y & z & Hl & Hin & _ & _ & _ & _ & Hpp & L).
    split; [exact Hpp|]. exists x, y, z. auto.
Qed.

Lemma reachable_wonGame : reachable wonGame.
Proof. apply reachable_run; [apply reachable_init | vm_compute; reflexivity]. Qed.

Lemma stored_winner_witness :
  reachable wonGame
  /\ ((winner (gameState wonGame), winningLine (gameState wonGame))
        = checkWinner (gameState wonGame) (board (gameState wonGame))
      /\ (winner (gameState wonGame) = None <-> winningLine (gameState wonGame) = None)
      /\ (forall p, winner (gameState wonGame) = Some p ->
          (p = 1 \/ p = 2)
          /\ exists x y z,
               winningLine (gameState wonGame) = Some [x; y; z]
               /\ In [x; y; z] winningCombinations
               /\ lineOf (boundCategory (gameState wonGame) p)
                         (board (gameState wonGame)) x y z)).
Proof.
  split; [exact reachable_wonGame|].
  exact (stored_winner_is_checkWinner wonGame reachable_wonGame).
Defined.

(** ** The highlighted cells *)

Lemma highlighted_line (gs : GameState) (line : list nat) :
  winningLine gs = Some line -> In line winningCombinations ->
  length (highlighted gs) = 3 /\ forall i, In i (highlighted gs) <-> In i line.
Proof.
  intros E H. unfold highlighted, isWinningCell. rewrite E. simpl in H.
  repeat (destruct H as [<-|H];
          [split; [reflexivity|]; intros i; simpl; intuition lia|]).
  destruct H.
Qed.

(** X6.  What [renderCell] highlights.  Without a winner no cell is drawn as a
    winning cell and the turn indicator is shown; with a winner the banner
    is shown and exactly three cells are highlighted, the cells of the line
    stored in the state, and each of them shows a symbol of the category of
    the winner. *)
Theorem highlighted_cells (w : World) :
  reachable w ->
  (winner (gameState w) = None ->
     highlighted (gameState w) = [] /\ winnerShown (gameState w) = false)
  /\ (forall p, winner (gameState w) = Some p ->
      winnerShown (gameState w) = true
      /\ length (highlighted (gameState w)) = 3
      /\ (forall i line, winningLine (gameState w) = Some line ->
            (In i (highlighted (gameState w)) <-> In i line))
      /\ (forall i, In i (highlighted (gameState w)) ->
            exists s, cell (board (gameState w)) i = Str s
                      /\ In s (emojiCategories (boundCategory (gameState w) p)))).
Proof.
  intros Hw. destruct (reachable_Settled w Hw) as [E _]. split.
  - intros Hn. unfold winnerShown, highlighted, isWinningCell. rewrite Hn in *.
    unfold checkWinner in E.
    destruct (checkWinnerIn_shape (gameState w) (board (gameState w)) winningCombinations)
      as [H|(p & line & H & _)]; rewrite H in E; [|discriminate].
    injection E as ->. split; reflexivity.
  - intros p Hp. rewrite Hp in E. symmetry in E.
    destruct (checkWinner_Some _ _ _ _ E)
      as (x & y & z & Hl & Hin & _ & _ & _ & _ & Hpp & L).
    destruct (highlighted_line _ _ Hl Hin) as [Hlen Hmem].
    split; [|split; [exact Hlen|split]].
    + unfold winnerShown. rewrite Hp. now destruct Hpp as [-> | ->].
    + intros i line Hl'. rewrite Hl in Hl'. injection Hl' as <-. apply Hmem.
    + intros i Hi. apply Hmem in Hi.
      destruct L as (sx & sy & sz & Cx & Cy & Cz & Ix & Iy & Iz).
      destruct Hi as [<-|[<-|[<-|[]]]]; eauto.
Qed.

Lemma highlighted_witness :
  reachable wonGame
  /\ ((winner (gameState wonGame) = None ->
         highlighted (gameState wonGame) = [] /\ winnerShown (gameState wonGame) = false)
      /\ (forall p, winner (gameState wonGame) = Some p ->
          winnerShown (gameState wonGame) = true
          /\ length (highlighted (gameState wonGame)) = 3
          /\ (forall i line, winningLine (gameState wonGame) = Some line ->
                (In i (highlighted (gameState wonGame)) <-> In i line))
          /\ (forall i, In i (highlighted (gameState wonGame)) ->
                exists s, cell (board (gameState wonGame)) i = Str s
                          /\ In s (emojiCategories (boundCategory (gameState wonGame) p))))).
Proof.
  split; [exact reachable_wonGame|].
  exact (highlighted_cells wonGame reachable_wonGame).
Defined.

(** ** Who wins *)

(** The board after [enqueue]: a cell is as before, or it is the clicked
    cell with the symbol drawn, or it is empty. *)
Lemma enqueue_cell (q : list Placed) (index : nat) (e : Val) (b : list Val) (j : nat) :
  length q <= 3 ->
  cell (snd (enqueue q index e (setCell b index e))) j = cell b j
  \/ (j = index /\ cell (snd (enqueue q index e (setCell b index e))) j = e)
  \/ cell (snd (enqueue q index e (setCell b index e))) j = Null.
Proof.
  intros Hq.
  destruct (enqueue_cases q index e (setCell b index e) Hq)
    as [[_ E]|(o & rest & _ & _ & E)]; rewrite E; simpl; rewrite !cell_setCell.
  - destruct (j =? index) eqn:Ej; [apply Nat.eqb_eq in Ej|]; auto.
  - destruct (j =? position o); [auto|].
    destruct (j =? index) eqn:Ej; [apply Nat.eqb_eq in Ej|]; auto.
Qed.

(** The board and the symbol of an accepted click. *)
Lemma accepted_click_board (w : World) (index : nat) (r : Rand) :
  Inv w -> ignored (gameState w) index = false ->
  exists s,
    getRandomEmoji (players w) r (currentPlayer (gameState w)) = Str s
    /\ In s (emojiCategories (boundCategory (gameState w) (currentPlayer (gameState w))))
    /\ forall j,
         cell (board (gameState (handleCellClick index r w))) j
           = cell (board (gameState w)) j
         \/ (j = index
             /\ cell (board (gameState (handleCellClick index r w))) j = Str s)
         \/ cell (board (gameState (handleCellClick index r w))) j = Null.
Proof.
  intros (p1 & p2 & Hp & C) G.
  destruct (ignored_false _ _ G) as (Hs & _).
  unfold handleCellClick. rewrite G, Hp.
  destruct (c_turn _ _ _ C) as [T|T]; rewrite T.
  - rewrite (updatePlayers_first _ _ _ _ _ (c_id1 _ _ _ C) (c_id2 _ _ _ C)).
    destruct (drawn_first _ _ _ r C Hs) as (s & He & Hin). rewrite He.
    exists s. split; [reflexivity|]. split; [exact Hin|].
    intros j. simpl. apply enqueue_cell, C.
  - rewrite (updatePlayers_second _ _ _ _ _ (c_id1 _ _ _ C) (c_id2 _ _ _ C)).
    destruct (drawn_second _ _ _ r C Hs) as (s & He & Hin). rewrite He.
    exists s. split; [reflexivity|]. split; [exact Hin|].
    intros j. simpl. apply enqueue_cell, C.
Qed.

(** X7.  A click that produces a winner completes a line through the clicked
    cell; when the two categories differ, the winner is the player who
    clicked. *)
Theorem winner_is_the_mover (w : World) (index : nat) (r : Rand) (p : nat) :
  reachable w ->
  winner (gameState w) = None ->
  winner (gameState (handleCellClick index r w)) = Some p ->
  (exists line, winningLine (gameState (handleCellClick index r w)) = Some line
                /\ In index line)
  /\ (player1Category (gameState w) <> player2Category (gameState w) ->
      p = currentPlayer (gameState w)).
Proof.
  intros Hw Hn Hp.
  pose proof (reachable_Inv w Hw) as I.
  destruct (reachable_Settled w Hw) as [E _].
  assert (G : ignored (gameState w) index = false).
  { destruct (ignored (gameState w) index) eqn:G; [|reflexivity].
    unfold handleCellClick in Hp. rewrite G in Hp. congruence. }
  destruct (accepted_click_board w index r I G) as (s & _ & Hs & Hcells).
  assert (S' : Settled (handleCellClick index r w))
    by (apply reachable_Settled; rewrite <- (step_CellClick zeros);
        now apply reachable_step).
  destruct S' as [E' _]. rewrite Hp in E'. symmetry in E'.
  destruct (handleCellClick_deps index r w) as (_ & D1 & D2).
  rewrite (checkWinner_categories _ (gameState w) _ D1 D2) in E'.
  destruct (checkWinner_Some _ _ _ _ E')
    as (x & y & z & Hl & Hin & _ & _ & _ & _ & Hpp & L).
  rewrite Hn in E. symmetry in E.
  assert (Hold : comboWinner (gameState w) (board (gameState w)) [x; y; z] = None).
  { unfold checkWinner in E.
    destruct (checkWinnerIn_shape (gameState w) (board (gameState w)) winningCombinations)
      as [H|(q & line & H & _)]; rewrite H in E; [|discriminate].
    apply checkWinnerIn_none with (c := [x; y; z]) in H; assumption. }
  destruct L as (sx & sy & sz & Cx & Cy & Cz & Ix & Iy & Iz).
  assert (Hthrough : In index [x; y; z]).
  { destruct (Nat.eq_dec x index) as [->|Nx]; [now left|].
    destruct (Nat.eq_dec y index) as [->|Ny]; [right; now left|].
    destruct (Nat.eq_dec z index) as [->|Nz]; [right; right; now left|].
    exfalso. apply (lineOf_wins (gameState w) (board (gameState w)) x y z p Hpp);
      [|exact Hold].
    exists sx, sy, sz.
    destruct (Hcells x) as [Hx|[[Hx _]|Hx]]; [|congruence|congruence].
    destruct (Hcells y) as [Hy|[[Hy _]|Hy]]; [|congruence|congruence].
    destruct (Hcells z) as [Hz|[[Hz _]|Hz]]; [|congruence|congruence].
    repeat split; congruence. }
  split; [exists [x; y; z]; auto|].
  intros Hne.
  assert (Hsame : boundCategory (gameState w) p
                  = boundCategory (gameState w) (currentPlayer (gameState w))).
  { assert (Hcell : cell (board (gameState (handleCellClick index r w))) index = Str s).
    { destruct (ignored_false _ _ G) as (_ & Hc & _).
      destruct (Hcells index) as [H|[[_ H]|H]]; [|exact H|].
      - destruct Hthrough as [<-|[<-|[<-|[]]]]; congruence.
      - destruct Hthrough as [<-|[<-|[<-|[]]]]; congruence. }
    assert (Hsp : In s (emojiCategories (boundCategory (gameState w) p))).
    { destruct Hthrough as [<-|[<-|[<-|[]]]]; congruence. }
    eapply categories_disjoint; eassumption. }
  destruct I as (p1 & p2 & _ & C).
  unfold boundCategory in Hsame.
  destruct Hpp as [-> | ->], (c_turn _ _ _ C) as [T|T]; rewrite T in *;
    simpl in Hsame; congruence.
Qed.

Lemma winner_is_the_mover_witness :
  (reachable beforeWin
   /\ winner (gameState beforeWin) = None
   /\ winner (gameState (handleCellClick 2 zero beforeWin)) = Some 1)
  /\ ((exists line, winningLine (gameState (handleCellClick 2 zero beforeWin)) = Some line
                    /\ In 2 line)
      /\ (player1Category (gameState beforeWin) <> player2Category (gameState beforeWin) ->
          1 = currentPlayer (gameState beforeWin))).
Proof.
  assert (H1 : winner (gameState beforeWin) = None) by (vm_compute; reflexivity).
  assert (H2 : winner (gameState (handleCellClick 2 zero beforeWin)) = Some 1)
    by (vm_compute; reflexivity).
  split; [exact (conj reachable_beforeWin (conj H1 H2))|].
  exact (winner_is_the_mover beforeWin 2 zero 1 reachable_beforeWin H1 H2).
Defined.

Lemma comboWinner_second (gs : GameState) (b : list Val) (combo : list nat) :
  comboWinner gs b combo = Some 2 -> player1Category gs <> player2Category gs.
Proof.
  intros H E. unfold comboWinner in H. rewrite E in H.
  destruct combo as [|x [|y [|z rest]]]; try discriminate.
  destruct (truthy (cell b x) && truthy (cell b y) && truthy (cell b z));
    [|discriminate].
  destruct (includes (emojiCategories (player2Category gs)) (cell b x)
            && includes (emojiCategories (player2Category gs)) (cell b y)
            && includes (emojiCategories (player2Category gs)) (cell b z));
    discriminate.
Qed.

(** X8.  While both players are bound to one category, player 2 is never the
    winner: every complete line is reported for player 1. *)
Theorem shared_category_player2_never_wins (w : World) :
  reachable w ->
  player1Category (gameState w) = player2Category (gameState w) ->
  winner (gameState w) <> Some 2.
Proof.
  intros Hw Heq Hp. destruct (reachable_Settled w Hw) as [E _].
  rewrite Hp in E. symmetry in E. unfold checkWinner in E.
  destruct (checkWinnerIn_shape (gameState w) (board (gameState w)) winningCombinations)
    as [H|(q & line & H & _)]; rewrite H in E; [discriminate|].
  injection E as -> _.
  apply checkWinnerIn_first in H. destruct H as (_ & _ & _ & Hc & _).
  exact (comboWinner_second _ _ _ Hc Heq).
Qed.

Lemma shared_category_witness :
  (reachable sharedTopRow
   /\ player1Category (gameState sharedTopRow) = player2Category (gameState sharedTopRow))
  /\ winner (gameState sharedTopRow) <> Some 2.
Proof.
  assert (H : player1Category (gameState sharedTopRow)
              = player2Category (gameState sharedTopRow)) by (vm_compute; reflexivity).
  split; [exact (conj reachable_sharedTopRow H)|].
  exact (shared_category_player2_never_wins sharedTopRow reachable_sharedTopRow H).
Defined.

(** ** The scores *)





(** ** A placement that evicts nothing *)

(** X10.  While the current player has fewer than three placements queued, an
    accepted click changes the board at the clicked cell only, which then
    holds the symbol drawn; the record is appended to the queue of the
    current player and the other player is as before.  This holds in every
    state the component can reach. *)
Theorem early_placement_frame (w : World) (index : nat) (r : Rand) (cur : Player) :
  reachable w ->
  gameStarted (gameState w) = true ->
  winner (gameState w) = None ->
  cell (board (gameState w)) index = Null ->
  In cur (players w) -> id cur = currentPlayer (gameState w) ->
  length (placedEmojis cur) < 3 ->
  let e := getRandomEmoji (players w) r (currentPlayer (gameState w)) in
  let w' := handleCellClick index r w in
  board (gameState w') = setCell (board (gameState w)) index e
  /\ cell (board (gameState w')) index = e
  /\ (exists s, e = Str s)
  /\ (forall j, j <> index ->
      cell (board (gameState w')) j = cell (board (gameState w)) j)
  /\ (forall p, In p (players w) -> id p <> currentPlayer (gameState w) ->
      In p (players w'))
  /\ In (withPlaced cur (placedEmojis cur ++ [ {| position := index; emoji := e |} ]))
        (players w').
Proof.
  intros Hw Hs Hn Hc Hin Hid Hlen.
  destruct (reachable_Inv w Hw) as (p1 & p2 & Hp & C).
  pose proof (ignored_legal _ _ Hs Hn Hc) as G.
  assert (Henq : forall e b,
            enqueue (placedEmojis cur) index e b
            = (placedEmojis cur ++ [ {| position := index; emoji := e |} ], b)).
  { intros e b. unfold enqueue. rewrite length_app. simpl.
    replace (3 <? length (placedEmojis cur) + 1) with false; [reflexivity|].
    symmetry. apply Nat.ltb_ge. lia. }
  simpl. unfold handleCellClick. rewrite G, Hp.
  destruct (fresh_current w p1 p2 cur Hp C Hin Hid) as [[T ->]|[T ->]]; rewrite T.
  - rewrite (updatePlayers_first _ _ _ _ _ (c_id1 _ _ _ C) (c_id2 _ _ _ C)).
    rewrite Henq. simpl.
    destruct (drawn_first _ _ _ r C Hs) as (s & He & _).
    split; [reflexivity|]. split; [rewrite cell_setCell; now rewrite Nat.eqb_refl|].
    split; [eauto|]. split; [|split].
    + intros j Hj. rewrite cell_setCell. apply Nat.eqb_neq in Hj. now rewrite Hj.
    + intros p [<-|[<-|[]]] Hne; [|right; now left].
      rewrite (c_id1 _ _ _ C) in Hne. congruence.
    + now left.
  - rewrite (updatePlayers_second _ _ _ _ _ (c_id1 _ _ _ C) (c_id2 _ _ _ C)).
    rewrite Henq. simpl.
    destruct (drawn_second _ _ _ r C Hs) as (s & He & _).
    split; [reflexivity|]. split; [rewrite cell_setCell; now rewrite Nat.eqb_refl|].
    split; [eauto|]. split; [|split].
    + intros j Hj. rewrite cell_setCell. apply Nat.eqb_neq in Hj. now rewrite Hj.
    + intros p [<-|[<-|[]]] Hne; [now left|].
      rewrite (c_id2 _ _ _ C) in Hne. congruence.
    + right. now left.
Qed.

Lemma early_placement_witness :
  let w := beforeWin in
  let cur := hd {| id := 0; category := tech; emojis := []; placedEmojis := [] |}
                (players w) in
  (reachable w /\ gameStarted (gameState w) = true /\ winner (gameState w) = None
   /\ cell (board (gameState w)) 2 = Null /\ In cur (players w)
   /\ id cur = currentPlayer (gameState w) /\ length (placedEmojis cur) < 3)
  /\ (let e := getRandomEmoji (players w) zero (currentPlayer (gameState w)) in
      let w' := handleCellClick 2 zero w in
      board (gameState w') = setCell (board (gameState w)) 2 e
      /\ cell (board (gameState w')) 2 = e
      /\ (exists s, e = Str s)
      /\ (forall j, j <> 2 ->
          cell (board (gameState w')) j = cell (board (gameState w)) j)
      /\ (forall p, In p (players w) -> id p <> currentPlayer (gameState w) ->
          In p (players w'))
      /\ In (withPlaced cur (placedEmojis cur ++ [ {| position := 2; emoji := e |} ]))
            (players w')).
Proof.
  assert (H1 : gameStarted (gameState beforeWin) = true) by (vm_compute; reflexivity).
  assert (H2 : winner (gameState beforeWin) = None) by (vm_compute; reflexivity).
  assert (H3 : cell (board (gameState beforeWin)) 2 = Null) by (vm_compute; reflexivity).
  assert (H4 : In (hd {| id := 0; category := tech; emojis := []; placedEmojis := [] |}
                      (players beforeWin)) (players beforeWin))
    by (vm_compute; left; reflexivity).
  assert (H5 : id (hd {| id := 0; category := tech; emojis := []; placedEmojis := [] |}
                      (players beforeWin)) = currentPlayer (gameState beforeWin))
    by (vm_compute; reflexivity).
  assert (H6 : length (placedEmojis
                         (hd {| id := 0; category := tech; emojis := []; placedEmojis := [] |}
                             (players beforeWin))) < 3)
    by (vm_compute; repeat constructor).
  split; [exact (conj reachable_beforeWin (conj H1 (conj H2 (conj H3 (conj H4 (conj H5 H6))))))|].
  exact (early_placement_frame beforeWin 2 zero _ reachable_beforeWin H1 H2 H3 H4 H5 H6).
Defined.

(** ** How the two categories become equal *)

Lemma Category_eqb_eq (a b : Category) : Category_eqb a b = true <-> a = b.
Proof. destruct a, b; simpl; split; intros H; try discriminate; reflexivity. Qed.

Lemma rerender_gameState (rnd : nat -> nat -> Rand) (prev next : World) :
  gameState (rerender rnd prev next) = gameState next.
Proof.
  unfold rerender, initPlayers.
  destruct (depsChanged _ _); [|reflexivity].
  now destruct (gameStarted (gameState next)).
Qed.

(** X11.  The setup card keeps player 2 off the category of player 1, and not
    the other way round: an action the markup offers makes the two
    categories equal only when it is the category button of player 1 for
    the category player 2 has.  Every other action offered, the category
    buttons of player 2 included, leaves different categories different. *)
Theorem equal_categories_only_by_player1 (w : World) (a : Action)
    (rnd : nat -> nat -> Rand) :
  offered w a = true ->
  player1Category (gameState w) <> player2Category (gameState w) ->
  player1Category (gameState (step rnd a w)) = player2Category (gameState (step rnd a w)) ->
  a = CategoryChange 1 (player2Category (gameState w)).
Proof.
  intros Ho Hne Heq. unfold step in Heq. rewrite rerender_gameState in Heq.
  destruct a as [index r| | |playerId c]; simpl in Heq.
  - destruct (handleCellClick_deps index r w) as (_ & D1 & D2). congruence.
  - congruence.
  - congruence.
  - simpl in Ho. apply andb_true_iff in Ho. destruct Ho as [_ Ho].
    destruct (playerId =? 1) eqn:E1; simpl in Heq.
    + apply Nat.eqb_eq in E1. congruence.
    + simpl in Ho. apply andb_true_iff in Ho. destruct Ho as [_ Ho].
      apply negb_true_iff in Ho.
      assert (T : Category_eqb (player1Category (gameState w)) c = true)
        by (apply Category_eqb_eq; exact Heq).
      congruence.
Qed.

Lemma equal_categories_witness :
  (offered initialWorld (CategoryChange 1 space) = true
   /\ player1Category (gameState initialWorld) <> player2Category (gameState initialWorld)
   /\ player1Category (gameState (step zeros (CategoryChange 1 space) initialWorld))
      = player2Category (gameState (step zeros (CategoryChange 1 space) initialWorld)))
  /\ CategoryChange 1 space = CategoryChange 1 (player2Category (gameState initialWorld)).
Proof.
  assert (H1 : offered initialWorld (CategoryChange 1 space) = true) by reflexivity.
  assert (H2 : player1Category (gameState initialWorld)
               <> player2Category (gameState initialWorld)) by discriminate.
  assert (H3 : player1Category (gameState (step zeros (CategoryChange 1 space) initialWorld))
               = player2Category (gameState (step zeros (CategoryChange 1 space) initialWorld)))
    by reflexivity.
  split; [exact (conj H1 (conj H2 H3))|].
  exact (equal_categories_only_by_player1 initialWorld (CategoryChange 1 space) zeros H1 H2 H3).
Defined.

(** ** The winning line and the queue of the winner *)

(** X12.  When the two categories differ and a winner is set, the winner has
    exactly three placements queued and their cells are the three cells of
    the winning line: a line is won with all the marks the winner has. *)
Theorem winning_line_is_the_queue (w : World) (p : nat) (line : list nat)
    (cur : Player) :
  reachable w ->
  player1Category (gameState w) <> player2Category (gameState w) ->
  winner (gameState w) = Some p ->
  winningLine (gameState w) = Some line ->
  In cur (players w) -> id cur = p ->
  length (placedEmojis cur) = 3
  /\ forall i, In i line <-> In i (map position (placedEmojis cur)).
Proof.
  intros Hw Hne Hp Hl Hin Hid.
  destruct (reachable_Inv w Hw) as (p1 & p2 & Hps & C).
  destruct (reachable_Settled w Hw) as [E _].
  rewrite Hp, Hl in E. symmetry in E.
  destruct (checkWinner_Some _ _ _ _ E)
    as (x & y & z & Heq & _ & N & Bx & By & Bz & Hpp & L).
  injection Heq as ->.
  assert (Hq : length (placedEmojis cur) <= 3
               /\ forall i s, i < 9 -> cell (board (gameState w)) i = Str s ->
                    In s (emojiCategories (boundCategory (gameState w) p)) ->
                    In i (map position (placedEmojis cur))).
  { rewrite Hps in Hin. unfold boundCategory.
    pose proof (c_id1 _ _ _ C) as I1. pose proof (c_id2 _ _ _ C) as I2.
    destruct Hin as [<-|[<-|[]]]; subst p.
    - rewrite I1. simpl. split; [apply C|].
      intros i s Hi Hc Hs.
      destruct (c_tracked _ _ _ C i Hi) as (e & He & Hpos & Hem); [congruence|].
      apply in_app_or in He. destruct He as [He|He].
      + rewrite <- Hpos. now apply in_map.
      + exfalso. destruct (c_sym2 _ _ _ C e He) as (t & Ht & Hin2).
        apply Hne. apply (categories_disjoint _ _ s); congruence.
    - rewrite I2. simpl. split; [apply C|].
      intros i s Hi Hc Hs.
      destruct (c_tracked _ _ _ C i Hi) as (e & He & Hpos & Hem); [congruence|].
      apply in_app_or in He. destruct He as [He|He].
      + exfalso. destruct (c_sym1 _ _ _ C e He) as (t & Ht & Hin1).
        apply Hne. apply (categories_disjoint _ _ s); congruence.
      + rewrite <- Hpos. now apply in_map. }
  destruct Hq as [Hlen Hcells].
  destruct L as (sx & sy & sz & Cx & Cy & Cz & Ix & Iy & Iz).
  assert (Hincl : incl [x; y; z] (map position (placedEmojis cur))).
  { intros i [<-|[<-|[<-|[]]]]; eauto. }
  pose proof (NoDup_incl_length N Hincl) as Hge.
  rewrite length_map in Hge. simpl in Hge.
  split; [lia|]. intros i. split; [apply Hincl|].
  apply (NoDup_length_incl N); [rewrite length_map; simpl; lia | exact Hincl].
Qed.

Lemma winning_line_witness :
  let cur := hd {| id := 0; category := tech; emojis := []; placedEmojis := [] |}
                (players wonGame) in
  (reachable wonGame
   /\ player1Category (gameState wonGame) <> player2Category (gameState wonGame)
   /\ winner (gameState wonGame) = Some 1
   /\ winningLine (gameState wonGame) = Some [0; 1; 2]
   /\ In cur (players wonGame) /\ id cur = 1)
  /\ (length (placedEmojis cur) = 3
      /\ forall i, In i [0; 1; 2] <-> In i (map position (placedEmojis cur))).
Proof.
  assert (H1 : player1Category (gameState wonGame) <> player2Category (gameState wonGame))
    by (vm_compute; discriminate).
  assert (H2 : winner (gameState wonGame) = Some 1) by (vm_compute; reflexivity).
  assert (H3 : winningLine (gameState wonGame) = Some [0; 1; 2]) by (vm_compute; reflexivity).
  assert (H4 : In (hd {| id := 0; category := tech; emojis := []; placedEmojis := [] |}
                      (players wonGame)) (players wonGame))
    by (vm_compute; left; reflexivity).
  assert (H5 : id (hd {| id := 0; category := tech; emojis := []; placedEmojis := [] |}
                      (players wonGame)) = 1) by (vm_compute; reflexivity).
  split; [exact (conj reachable_wonGame (conj H1 (conj H2 (conj H3 (conj H4 H5)))))|].
  exact (winning_line_is_the_queue wonGame 1 [0; 1; 2] _ reachable_wonGame H1 H2 H3 H4 H5).
Defined.

(** ** The game never gets stuck *)

Lemma forallb_false_exists (f : nat -> bool) (l : list nat) :
  forallb f l = false -> exists i, In i l /\ f i = false.
Proof.
  induction l as [|x l IH]; simpl; [discriminate|].
  destruct (f x) eqn:E; simpl.
  - intros H. destruct (IH H) as (i & Hi & Hf). eauto.
  - intros _. eauto.
Qed.

(** X13.  In every started game without a winner there is an empty cell among
    the nine, and a click on it is accepted: it passes the turn on.  The
    players can always go on until someone wins. *)
Theorem a_move_is_always_possible (w : World) :
  reachable w ->
  gameStarted (gameState w) = true ->
  winner (gameState w) = None ->
  exists index,
    index < 9 /\ cell (board (gameState w)) index = Null
    /\ forall r, currentPlayer (gameState (handleCellClick index r w))
                 <> currentPlayer (gameState w).
Proof.
  intros Hw Hs Hn.
  pose proof (Inv_occupied w (reachable_Inv w Hw)) as Hocc.
  assert (F : boardFull (board (gameState w)) = false).
  { destruct (boardFull (board (gameState w))) eqn:E; [|reflexivity].
    apply boardFull_occupied in E. lia. }
  apply forallb_false_exists in F. destruct F as (index & Hin & Hf).
  apply in_seq in Hin. apply negb_false_iff in Hf.
  assert (Hc : cell (board (gameState w)) index = Null)
    by (destruct (cell (board (gameState w)) index); try discriminate; reflexivity).
  exists index. split; [lia|]. split; [exact Hc|].
  intros r. unfold handleCellClick. rewrite (ignored_legal _ _ Hs Hn Hc).
  destruct (updatePlayers _ _ _ _ _) as [ups nb]. simpl.
  destruct (currentPlayer (gameState w) =? 1) eqn:E.
  - apply Nat.eqb_eq in E. lia.
  - apply Nat.eqb_neq in E. lia.
Qed.

Lemma a_move_witness :
  (reachable sixMoves /\ gameStarted (gameState sixMoves) = true
   /\ winner (gameState sixMoves) = None)
  /\ exists index,
       index < 9 /\ cell (board (gameState sixMoves)) index = Null
       /\ forall r, currentPlayer (gameState (handleCellClick index r sixMoves))
                    <> currentPlayer (gameState sixMoves).
Proof.
  assert (H0 : reachable sixMoves)
    by (apply reachable_run; [apply reachable_init | vm_compute; reflexivity]).
  assert (H1 : gameStarted (gameState sixMoves) = true) by (vm_compute; reflexivity).
  assert (H2 : winner (gameState sixMoves) = None) by (vm_compute; reflexivity).
  split; [exact (conj H0 (conj H1 H2))|].
  exact (a_move_is_always_possible sixMoves H0 H1 H2).
Defined.

(** ** What the board holds *)

(** X14.  In every state the component can reach the board has nine cells, and
    each of them is empty or holds a symbol of the category of player 1 or
    of player 2: the placeholder of [getRandomEmoji] and [undefined] never
    get on the board, and a read past the nine cells is [undefined]. *)
Theorem board_holds_symbols (w : World) :
  reachable w ->
  length (board (gameState w)) = 9
  /\ (forall i, i < 9 ->
      cell (board (gameState w)) i = Null
      \/ exists s, cell (board (gameState w)) i = Str s
                   /\ s <> placeholder
                   /\ (In s (emojiCategories (player1Category (gameState w)))
                       \/ In s (emojiCategories (player2Category (gameState w)))))
  /\ (forall i, 9 <= i -> cell (board (gameState w)) i = Undefined).
Proof.
  intros Hw. destruct (reachable_Inv w Hw) as (p1 & p2 & Hp & C).
  pose proof (c_board _ _ _ C) as Hb.
  split; [exact Hb|]. split.
  - intros i Hi.
    destruct (cell (board (gameState w)) i) as [| |s] eqn:Hc; [|now left|].
    + destruct (c_tracked _ _ _ C i Hi) as (e & He & _ & Hem); [congruence|].
      rewrite Hc in Hem. apply in_app_or in He. destruct He as [He|He].
      * destruct (c_sym1 _ _ _ C e He) as (t & Ht & _). congruence.
      * destruct (c_sym2 _ _ _ C e He) as (t & Ht & _). congruence.
    + right. exists s. split; [reflexivity|].
      destruct (c_tracked _ _ _ C i Hi) as (e & He & _ & Hem); [congruence|].
      rewrite Hc in Hem. apply in_app_or in He.
      assert (Hcat : In s (emojiCategories (player1Category (gameState w)))
                     \/ In s (emojiCategories (player2Category (gameState w)))).
      { destruct He as [He|He].
        - destruct (c_sym1 _ _ _ C e He) as (t & Ht & Hin). left. congruence.
        - destruct (c_sym2 _ _ _ C e He) as (t & Ht & Hin). right. congruence. }
      split; [|exact Hcat].
      intros ->. destruct Hcat as [H|H]; eapply placeholder_in_no_category; exact H.
  - intros i Hi. apply cell_outside. lia.
Qed.

Lemma board_holds_symbols_witness :
  reachable sharedTopRow
  /\ (length (board (gameState sharedTopRow)) = 9
      /\ (forall i, i < 9 ->
          cell (board (gameState sharedTopRow)) i = Null
          \/ exists s, cell (board (gameState sharedTopRow)) i = Str s
                       /\ s <> placeholder
                       /\ (In s (emojiCategories (player1Category (gameState sharedTopRow)))
                           \/ In s (emojiCategories (player2Category (gameState sharedTopRow)))))
      /\ (forall i, 9 <= i -> cell (board (gameState sharedTopRow)) i = Undefined)).
Proof.
  split; [exact reachable_sharedTopRow|].
  exact (board_holds_symbols sharedTopRow reachable_sharedTopRow).
Defined.

(** ** Reset, then start *)

(** X15.  Whatever the state, "Reset Game" followed by "Start Game" gives a clean
    game: an empty board, two players with ids 1 and 2, empty queues and a
    shuffle of their category each, player 1 to move, no winner, and the
    categories and scores of before.  (The button "Play Again" alone does
    not empty the queues.) *)
Theorem reset_then_start_is_clean (w : World) (rnd1 rnd2 : nat -> nat -> Rand) :
  let w' := step rnd2 StartGame (step rnd1 ResetGame w) in
  gameStarted (gameState w') = true
  /\ board (gameState w') = repeat Null 9
  /\ currentPlayer (gameState w') = 1
  /\ winner (gameState w') = None
  /\ winningLine (gameState w') = None
  /\ player1Category (gameState w') = player1Category (gameState w)
  /\ player2Category (gameState w') = player2Category (gameState w)
  /\ scores w' = scores w
  /\ map id (players w') = [1; 2]
  /\ map placedEmojis (players w') = [[]; []]
  /\ map category (players w')
     = [player1Category (gameState w); player2Category (gameState w)]
  /\ Forall2 (fun p c => Permutation (emojis p) (emojiCategories c))
             (players w')
             [player1Category (gameState w); player2Category (gameState w)].
Proof.
  simpl. rewrite step_ResetGame, step_StartGame. simpl.
  repeat split.
  repeat constructor; apply shuffleFrom_Permutation.
Qed.
